(** * Hand Prop Placer: the place-prop operator of [hand_prop_placer.py]

    A shallow embedding of [HANDPROP_OT_place_prop.poll] and
    [HANDPROP_OT_place_prop.execute] over a model of the part of the host
    (Blender's [bpy] and [mathutils]) that the two methods touch.

    Modelling conventions.
    - Scalars.  [mathutils] computes on machine floats; here every scalar
      is a real number and arithmetic is exact.  Rounding, infinities and
      NaN are outside the model.
    - Objects live in a store indexed by object name; a pointer property
      holds a name and reads as [None] when nothing is stored under it.
    - Assigning [matrix_world] makes the host decompose the matrix into
      location, rotation and scale and recompose the object's matrix from
      them: the object gets the matrix's translation, and the rotation and
      scale the host's decomposition gives (taken from the host as given),
      so a sheared matrix does not come back.
    - [pose_bone.matrix] is the bone's matrix in the space of the armature
      object; the bone's world matrix is the armature's [matrix_world]
      times it.
    - The scene is evaluated when the operator starts.  The evaluation of
      [view_layer.update] then has one thing to do: it gives the Child Of
      constraint just created its inverse matrix.
    - Each selection call ([bpy.ops.object.select_all],
      [Object.select_set]) succeeds or raises [RuntimeError] as the host
      decides, call by call; [bpy.ops.constraint.childof_set_inverse]
      likewise.  [run_execute] runs the operator where the selection calls
      succeed, [run_execute_in] where the host decides. *)

From Stdlib Require Import Reals Lra.
From stdpp Require Import gmap strings list fin_maps.

(** ** mathutils: vectors, quaternions, Euler angles, matrices *)

Module Mathutils.
Local Open Scope R_scope.

Record Vector := mkVector { vx : R; vy : R; vz : R }.

Record Quaternion := mkQuaternion { qw : R; qx : R; qy : R; qz : R }.

(** One row of a 4x4 matrix. *)
Record Row4 := mkRow4 { c0 : R; c1 : R; c2 : R; c3 : R }.

(** A 4x4 [mathutils.Matrix], by rows: [M[i][j]] is column [j] of row [i]. *)
Record Matrix := mkMatrix { r0 : Row4; r1 : Row4; r2 : Row4; r3 : Row4 }.

(** A 3x3 [mathutils.Matrix], by rows. *)
Record Matrix3 := mkMatrix3 { m3r0 : Vector; m3r1 : Vector; m3r2 : Vector }.

Definition zero_vector : Vector := mkVector 0 0 0.

Definition identity_quaternion : Quaternion := mkQuaternion 1 0 0 0.

Definition identity_matrix : Matrix :=
  mkMatrix (mkRow4 1 0 0 0) (mkRow4 0 1 0 0) (mkRow4 0 0 1 0) (mkRow4 0 0 0 1).

(** [math.radians] *)
Definition radians (deg : R) : R := deg * (PI / 180).

(** [Vector + Vector] *)
Definition vector_add (a b : Vector) : Vector :=
  mkVector (vx a + vx b) (vy a + vy b) (vz a + vz b).

(** [Matrix.translation] (getter): the first three entries of the last
    column. *)
Definition translation (m : Matrix) : Vector :=
  mkVector (c3 (r0 m)) (c3 (r1 m)) (c3 (r2 m)).

Definition set_c3 (r : Row4) (x : R) : Row4 := mkRow4 (c0 r) (c1 r) (c2 r) x.

(** [Matrix.translation = v] (setter) *)
Definition set_translation (m : Matrix) (v : Vector) : Matrix :=
  mkMatrix (set_c3 (r0 m) (vx v)) (set_c3 (r1 m) (vy v)) (set_c3 (r2 m) (vz v))
           (r3 m).

(** [Quaternion @ Vector]: the vector rotated by the quaternion,
    [q * (0, v) * conj q]. *)
Definition quaternion_rotate (q : Quaternion) (v : Vector) : Vector :=
  let t0 := - qx q * vx v - qy q * vy v - qz q * vz v in
  let a0 := qw q * vx v + qy q * vz v - qz q * vy v in
  let a1 := qw q * vy v + qz q * vx v - qx q * vz v in
  let a2 := qw q * vz v + qx q * vy v - qy q * vx v in
  mkVector (t0 * - qx q + a0 * qw q - a1 * qz q + a2 * qy q)
           (t0 * - qy q + a1 * qw q - a2 * qx q + a0 * qz q)
           (t0 * - qz q + a2 * qw q - a0 * qy q + a1 * qx q).

(** [Euler((x, y, z), 'XYZ').to_quaternion()]: the quaternion of the
    rotation about X, then Y, then Z, from the half angles. *)
Definition euler_xyz_to_quaternion (x y z : R) : Quaternion :=
  let ci := cos (x / 2) in let cj := cos (y / 2) in let ch := cos (z / 2) in
  let si := sin (x / 2) in let sj := sin (y / 2) in let sh := sin (z / 2) in
  let cc := ci * ch in let cs := ci * sh in
  let sc := si * ch in let ss := si * sh in
  mkQuaternion (cj * cc + sj * ss) (cj * sc - sj * cs)
               (cj * ss + sj * cc) (cj * cs - sj * sc).

(** [Quaternion.to_matrix]: the 3x3 rotation matrix of a quaternion. *)
Definition quaternion_to_matrix (q : Quaternion) : Matrix3 :=
  let w := qw q in let x := qx q in let y := qy q in let z := qz q in
  mkMatrix3
    (mkVector (1 - 2 * (y * y + z * z)) (2 * (x * y - w * z)) (2 * (x * z + w * y)))
    (mkVector (2 * (x * y + w * z)) (1 - 2 * (x * x + z * z)) (2 * (y * z - w * x)))
    (mkVector (2 * (x * z - w * y)) (2 * (y * z + w * x)) (1 - 2 * (x * x + y * y))).

Definition row_to_4 (v : Vector) : Row4 := mkRow4 (vx v) (vy v) (vz v) 0.

(** [Matrix.to_4x4] of a 3x3 matrix: padded with the identity. *)
Definition to_4x4 (m : Matrix3) : Matrix :=
  mkMatrix (row_to_4 (m3r0 m)) (row_to_4 (m3r1 m)) (row_to_4 (m3r2 m))
           (mkRow4 0 0 0 1).

Definition row_times (r : Row4) (m : Matrix) : Row4 :=
  mkRow4
    (c0 r * c0 (r0 m) + c1 r * c0 (r1 m) + c2 r * c0 (r2 m) + c3 r * c0 (r3 m))
    (c0 r * c1 (r0 m) + c1 r * c1 (r1 m) + c2 r * c1 (r2 m) + c3 r * c1 (r3 m))
    (c0 r * c2 (r0 m) + c1 r * c2 (r1 m) + c2 r * c2 (r2 m) + c3 r * c2 (r3 m))
    (c0 r * c3 (r0 m) + c1 r * c3 (r1 m) + c2 r * c3 (r2 m) + c3 r * c3 (r3 m)).

(** [Matrix @ Matrix] *)
Definition matmul (a b : Matrix) : Matrix :=
  mkMatrix (row_times (r0 a) b) (row_times (r1 a) b) (row_times (r2 a) b)
           (row_times (r3 a) b).

(** One row of [Matrix.LocRotScale]: a row of the rotation matrix, its
    entries scaled column by column, then the location's entry. *)
Definition scaled_row (r size : Vector) (l : R) : Row4 :=
  mkRow4 (vx r * vx size) (vy r * vy size) (vz r * vz size) l.

(** [Matrix.LocRotScale(loc, rot, scale)]: translation times rotation
    times scale. *)
Definition compose_matrix (loc : Vector) (rot : Quaternion) (size : Vector) : Matrix :=
  let r := quaternion_to_matrix rot in
  mkMatrix (scaled_row (m3r0 r) size (vx loc)) (scaled_row (m3r1 r) size (vy loc))
           (scaled_row (m3r2 r) size (vz loc)) (mkRow4 0 0 0 1).

(** A rotation quaternion has norm one. *)
Definition unit_quaternion (q : Quaternion) : Prop :=
  qw q * qw q + qx q * qx q + qy q * qy q + qz q * qz q = 1.

End Mathutils.

Import Mathutils.

(** ** The host's data: objects, bones, constraints, the scene *)

(** Objects are referred to by name ([bpy.data.objects] keeps names unique). *)
Abbreviation ObjId := string.

Inductive ObjectType := MESH | CURVE | EMPTY | LIGHT | CAMERA | ARMATURE.

Global Instance ObjectType_eq_dec : EqDecision ObjectType.
Proof. solve_decision. Defined.

(** [PoseBone]: [matrix] is the bone's current pose matrix. *)
Record PoseBone := mkPoseBone { pb_name : string; pb_matrix : Matrix }.

(** [Object.data] and [Object.pose].  Only an armature has bones
    ([data.bones], here their names) and a pose ([pose.bones]); the pose
    of an armature object is [None] until the host has built it. *)
Inductive ObjectData :=
| ArmatureData (bones : list string) (pose_bones : option (list PoseBone))
| MeshData
| CurveData
| EmptyData
| LightData
| CameraData.

Inductive ConstraintType :=
  CHILD_OF | COPY_LOCATION | COPY_ROTATION | COPY_TRANSFORMS | TRACK_TO.

Global Instance ConstraintType_eq_dec : EqDecision ConstraintType.
Proof. solve_decision. Defined.

(** A constraint in an object's stack.  [c_name] identifies it within the
    stack: the host keeps the names of an object's constraints distinct, and
    the operator hands [constraint.name] to the inverse operator. *)
Record Constraint := mkConstraint {
  c_name : nat;
  c_type : ConstraintType;
  target : option ObjId;
  subtarget : string;
  inverse_matrix : Matrix
}.

Record Object := mkObject {
  data : ObjectData;
  scale : Vector;
  matrix_world : Matrix;
  constraints : list Constraint
}.

(** [Object.type] *)
Definition type (o : Object) : ObjectType :=
  match data o with
  | ArmatureData _ _ => ARMATURE
  | MeshData => MESH
  | CurveData => CURVE
  | EmptyData => EMPTY
  | LightData => LIGHT
  | CameraData => CAMERA
  end.

(** [Object.data.bones] of an armature (names). *)
Definition data_bones (o : Object) : list string :=
  match data o with
  | ArmatureData bones _ => bones
  | _ => []
  end.

(** [Object.pose]: [None] unless the object is an armature with a pose. *)
Definition pose (o : Object) : option (list PoseBone) :=
  match data o with
  | ArmatureData _ pose_bones => pose_bones
  | _ => None
  end.

(** [pose.bones.get(name)] *)
Definition bones_get (bones : list PoseBone) (name : string) : option PoseBone :=
  find (fun b => bool_decide (pb_name b = name)) bones.

Inductive HandSide := RIGHT | LEFT.

(** [HandPropPlacerProperties] *)
Record HandPropPlacerProperties := mkProps {
  armature_obj : option ObjId;
  target_hand_bone_name : string;
  prop_obj : option ObjId;
  hand_side : HandSide;
  offset_x : R;
  offset_y : R;
  offset_z : R;
  rotate_x : R;
  rotate_y : R;
  rotate_z : R;
  parent_prop : bool;
  apply_prop_scale : bool
}.

(** What the operator sees of [context]: the objects, the selection
    ([context.selected_objects]), the active object
    ([context.view_layer.objects.active]) and the settings
    ([context.scene.hand_prop_placer_props]). *)
Record Scene := mkScene {
  objects : gmap ObjId Object;
  selected_objects : gset ObjId;
  active : option ObjId;
  hand_prop_placer_props : HandPropPlacerProperties
}.

(** Reading a pointer property: the object it refers to, or [None]. *)
Definition read_pointer (s : Scene) (p : option ObjId) : option ObjId :=
  match p with
  | Some i => match objects s !! i with Some _ => Some i | None => None end
  | None => None
  end.

(** What is taken from the host as given: [Matrix.to_quaternion] (the
    rotation part of a matrix as a quaternion); the rotation and the scale
    into which the host decomposes a matrix assigned to [matrix_world];
    the inverse matrix its evaluation gives a new Child Of constraint; and
    the outcome of the inverse computation of
    [bpy.ops.constraint.childof_set_inverse] ([inl msg]: it raises
    [RuntimeError(msg)]; [inr m]: it stores [m]). *)
Record Host := mkHost {
  to_quaternion : Matrix -> Quaternion;
  decompose_rotation : Matrix -> Quaternion;
  decompose_scale : Matrix -> Vector;
  evaluated_inverse : Matrix;
  childof_inverse : string + Matrix
}.

(** The host together with its verdict on each selection call of a run
    ([Some msg]: the call raises [RuntimeError(msg)]): the
    [select_all] and the [select_set] of the try block (lines 123 and
    124), the [select_all] that starts the restoring (line 137) and the
    [select_set] of each object restored (line 139). *)
Record Context := mkContext {
  ctx_host : Host;
  deselect_error : option string;
  select_prop_error : option string;
  restore_deselect_error : option string;
  restore_select_error : ObjId -> option string
}.

(** The context in which every selection call succeeds. *)
Definition calm (host : Host) : Context :=
  mkContext host None None None (fun _ => None).

(** ** The constraint stack ([Object.constraints])

    [Object.constraints] is not a Python list but a [bpy_prop_collection]
    over the host's linked list of constraints.  Iterating it from Python
    goes through an iterator that holds a link to the node it will hand out
    next: each step takes that node, moves the link on to the node's
    successor in the list as it is then, and only afterwards runs the loop
    body on the node taken.  [constraints.remove(c)] unlinks the node [c];
    the link, already on the successor, is not disturbed by it (an index
    into a Python list would be). *)

Definition lookup_constraint (k : nat) (cs : list Constraint) : option Constraint :=
  find (fun c => bool_decide (c_name c = k)) cs.

(** The name of the node that follows node [k], if any. *)
Fixpoint successor (k : nat) (cs : list Constraint) : option nat :=
  match cs with
  | [] => None
  | c :: rest =>
      if bool_decide (c_name c = k) then c_name <$> head rest
      else successor k rest
  end.

(** [constraints.remove(c)] *)
Definition constraints_remove (k : nat) (cs : list Constraint) : list Constraint :=
  filter (fun c => c_name c ≠ k) cs.

(** [for c in constraints: body], the iterator's link being [link];
    [fuel] bounds the number of nodes handed out. *)
Fixpoint for_each_constraint (fuel : nat)
    (body : Constraint -> list Constraint -> list Constraint)
    (link : option nat) (cs : list Constraint) : list Constraint :=
  match fuel with
  | O => cs
  | S fuel' =>
      match link ≫= (fun k => lookup_constraint k cs) with
      | None => cs
      | Some c =>
          let link' := successor (c_name c) cs in
          for_each_constraint fuel' body link' (body c cs)
      end
  end.

(** The loop body of both branches:
    [if c.type == 'CHILD_OF': prop_obj.constraints.remove(c)]. *)
Definition remove_if_child_of (c : Constraint) (cs : list Constraint) : list Constraint :=
  if bool_decide (c_type c = CHILD_OF) then constraints_remove (c_name c) cs else cs.

(** [for c in prop_obj.constraints: if c.type == 'CHILD_OF': ...remove(c)].
    The body never adds a node, so the loop hands out at most as many nodes
    as the stack has at the start. *)
Definition remove_child_of_constraints (cs : list Constraint) : list Constraint :=
  for_each_constraint (length cs) remove_if_child_of (c_name <$> head cs) cs.

(** A name not yet in the stack. *)
Definition fresh_name (cs : list Constraint) : nat :=
  S (foldr Nat.max 0 (c_name <$> cs)).

(** [constraints.new(type=t)]: a new constraint at the end of the stack,
    without target and with the identity as inverse matrix. *)
Definition constraints_new (t : ConstraintType) (cs : list Constraint) : list Constraint :=
  cs ++ [mkConstraint (fresh_name cs) t None ""%string identity_matrix].

(** Assignments through a constraint handle. *)
Definition update_constraint (k : nat) (f : Constraint -> Constraint)
    (cs : list Constraint) : list Constraint :=
  (fun c => if bool_decide (c_name c = k) then f c else c) <$> cs.

Definition set_target (t : option ObjId) (c : Constraint) : Constraint :=
  mkConstraint (c_name c) (c_type c) t (subtarget c) (inverse_matrix c).

Definition set_subtarget (b : string) (c : Constraint) : Constraint :=
  mkConstraint (c_name c) (c_type c) (target c) b (inverse_matrix c).

Definition set_inverse_matrix (m : Matrix) (c : Constraint) : Constraint :=
  mkConstraint (c_name c) (c_type c) (target c) (subtarget c) m.

(** Assignments to an object's properties. *)
Definition set_scale (v : Vector) (o : Object) : Object :=
  mkObject (data o) v (matrix_world o) (constraints o).

(** The matrix an object has once [m] was assigned to its
    [matrix_world]: recomposed from [m]'s translation and from the
    rotation and scale the host decomposes [m] into. *)
Definition assigned_matrix_world (host : Host) (m : Matrix) : Matrix :=
  compose_matrix (translation m) (decompose_rotation host m) (decompose_scale host m).

(** [obj.matrix_world = m]: the assignment also rewrites the scale. *)
Definition set_matrix_world (host : Host) (m : Matrix) (o : Object) : Object :=
  mkObject (data o) (decompose_scale host m) (assigned_matrix_world host m)
    (constraints o).

Definition set_constraints (f : list Constraint -> list Constraint) (o : Object) : Object :=
  mkObject (data o) (scale o) (matrix_world o) (f (constraints o)).

(** Number of bone-following constraints in a stack. *)
Definition count_child_of (cs : list Constraint) : nat :=
  length (filter (fun c => c_type c = CHILD_OF) cs).

(** ** The operator's effects: a state and exception monad *)

Inductive ReportType := INFO | WARNING | ERROR.

Abbreviation Report := (ReportType * string)%type.

Inductive Exception :=
| AttributeError
| ReferenceError
| RuntimeError (msg : string).

Inductive Result (A : Type) :=
| Value (a : A)
| Raised (e : Exception).
Arguments Value {A} a.
Arguments Raised {A} e.

(** The state threaded through the operator: the scene and the reports
    made so far with [self.report]. *)
Record State := mkState { st_scene : Scene; st_reports : list Report }.

Definition M (A : Type) : Type := State -> Result A * State.

Global Instance M_ret : MRet M := fun A a st => (Value a, st).

Global Instance M_bind : MBind M := fun A B f m st =>
  match m st with
  | (Value a, st') => f a st'
  | (Raised e, st') => (Raised e, st')
  end.

Definition raise {A} (e : Exception) : M A := fun st => (Raised e, st).

Definition get_scene : M Scene := fun st => (Value (st_scene st), st).

Definition modify_scene (f : Scene -> Scene) : M unit :=
  fun st => (Value tt, mkState (f (st_scene st)) (st_reports st)).

(** [self.report({level}, msg)] *)
Definition report (level : ReportType) (msg : string) : M unit :=
  fun st => (Value tt, mkState (st_scene st) (st_reports st ++ [(level, msg)])).

(** [try: body / except RuntimeError as e: handler(e)]: only [RuntimeError]
    is caught, and what [body] did before raising stays done. *)
Definition try_except_RuntimeError {A} (body : M A) (handler : string -> M A) : M A :=
  fun st =>
    match body st with
    | (Raised (RuntimeError msg), st') => handler msg st'
    | r => r
    end.

(** Attribute access on a value that may be [None]. *)
Definition not_none {A} (x : option A) : M A :=
  match x with
  | Some a => mret a
  | None => raise AttributeError
  end.

(** Reading an object through a reference. *)
Definition get_object (i : ObjId) : M Object :=
  s ← get_scene;
  match objects s !! i with
  | Some o => mret o
  | None => raise ReferenceError
  end.

(** Writing a property of an object through a reference. *)
Definition modify_object (i : ObjId) (f : Object -> Object) : M unit :=
  modify_scene (fun s =>
    mkScene (alter f i (objects s)) (selected_objects s) (active s)
            (hand_prop_placer_props s)).

(** [bpy.ops.object.select_all(action='DESELECT')], [error] being the
    host's verdict on this call. *)
Definition select_all_DESELECT (error : option string) : M unit :=
  match error with
  | Some msg => raise (RuntimeError msg)
  | None =>
      modify_scene (fun s =>
        mkScene (objects s) ∅ (active s) (hand_prop_placer_props s))
  end.

(** [obj.select_set(True)], [error] being the host's verdict on this
    call. *)
Definition select_set_True (error : option string) (i : ObjId) : M unit :=
  match error with
  | Some msg => raise (RuntimeError msg)
  | None =>
      modify_scene (fun s =>
        mkScene (objects s) ({[ i ]} ∪ selected_objects s) (active s)
                (hand_prop_placer_props s))
  end.

(** [context.view_layer.objects.active = obj] *)
Definition set_active (a : option ObjId) : M unit :=
  modify_scene (fun s =>
    mkScene (objects s) (selected_objects s) a (hand_prop_placer_props s)).

(** [bpy.context.view_layer.update()]: the evaluation gives the Child Of
    constraint [name] of object [i], created since the last evaluation, its
    inverse matrix. *)
Definition view_layer_update (host : Host) (i : ObjId) (name : nat) : M unit :=
  modify_object i
    (set_constraints
       (update_constraint name (set_inverse_matrix (evaluated_inverse host)))).

(** [prop_obj.data.update()]: the mesh recomputes derived data, none of
    which is modelled. *)
Definition data_update : M unit := mret tt.

(** [bpy.ops.constraint.childof_set_inverse(constraint=name)]: on the
    active object, store the inverse the host computed in the constraint of
    that name; [RuntimeError] when the host cannot. *)
Definition childof_set_inverse (host : Host) (name : nat) : M unit :=
  match childof_inverse host with
  | inl msg => raise (RuntimeError msg)
  | inr m =>
      s ← get_scene;
      match active s with
      | Some a =>
          modify_object a
            (set_constraints (update_constraint name (set_inverse_matrix m)))
      | None => raise (RuntimeError "context is incorrect"%string)
      end
  end.

(** [for obj in objs: obj.select_set(True)] *)
Fixpoint select_each (error : ObjId -> option string) (objs : list ObjId) : M unit :=
  match objs with
  | [] => mret tt
  | obj :: rest => select_set_True (error obj) obj ;; select_each error rest
  end.

(** ** The operator *)

Inductive Status := FINISHED | CANCELLED.

(** [HANDPROP_OT_place_prop.poll]; the value of the [and] chain is read
    for its truth. *)
Definition poll (s : Scene) : bool :=
  let props := hand_prop_placer_props s in
  match read_pointer s (armature_obj props) with
  | None => false
  | Some a =>
      match objects s !! a with
      | None => false
      | Some armature =>
          bool_decide (type armature = ARMATURE) &&
          match read_pointer s (prop_obj props) with
          | None => false
          | Some p =>
              bool_decide (p ≠ a) &&
              bool_decide (target_hand_bone_name props ∈ data_bones armature)
          end
      end
  end.

(** The matrix assigned to [prop_obj.matrix_world] (lines 94 to 107). *)
Definition placement_matrix (host : Host) (props : HandPropPlacerProperties)
    (pose_bone : PoseBone) : Matrix :=
  let bone_matrix_world := pb_matrix pose_bone in
  let new_matrix := bone_matrix_world in
  let offset := mkVector (offset_x props) (offset_y props) (offset_z props) in
  let new_matrix :=
    set_translation new_matrix
      (vector_add (translation new_matrix)
         (quaternion_rotate (to_quaternion host bone_matrix_world) offset)) in
  let rotation_matrix :=
    to_4x4 (quaternion_to_matrix
      (euler_xyz_to_quaternion (radians (rotate_x props))
         (radians (rotate_y props)) (radians (rotate_z props)))) in
  matmul new_matrix rotation_matrix.

(** [HANDPROP_OT_place_prop.execute] *)
Definition execute (ctx : Context) : M Status :=
  let host := ctx_host ctx in
  s ← get_scene;
  let props := hand_prop_placer_props s in
  let armature_obj := read_pointer s (armature_obj props) in
  let prop_obj := read_pointer s (prop_obj props) in
  let bone_name := target_hand_bone_name props in
  a ← not_none armature_obj;
  armature ← get_object a;
  pose_bones ← not_none (pose armature);
  match bones_get pose_bones bone_name with
  | None =>
      report ERROR ("Bone '" +:+ bone_name +:+ "' not found in pose bones.")%string ;;
      mret CANCELLED
  | Some pose_bone =>
      let original_active := active s in
      let original_selection := elements (selected_objects s) in
      (if apply_prop_scale props then
         p ← not_none prop_obj;
         modify_object p (set_scale (mkVector 1 1 1)) ;;
         o ← get_object p;
         if bool_decide (type o = MESH) then data_update else mret tt
       else mret tt) ;;
      let new_matrix := placement_matrix host props pose_bone in
      p ← not_none prop_obj;
      modify_object p (set_matrix_world host new_matrix) ;;
      (if parent_prop props then
         modify_object p (set_constraints remove_child_of_constraints) ;;
         o ← get_object p;
         let constraint := fresh_name (constraints o) in
         modify_object p (set_constraints (constraints_new CHILD_OF)) ;;
         modify_object p
           (set_constraints (update_constraint constraint (set_target armature_obj))) ;;
         modify_object p
           (set_constraints (update_constraint constraint (set_subtarget bone_name))) ;;
         view_layer_update host p constraint ;;
         try_except_RuntimeError
           (select_all_DESELECT (deselect_error ctx) ;;
            select_set_True (select_prop_error ctx) p ;;
            set_active (Some p) ;;
            childof_set_inverse host constraint ;;
            report INFO "Constraint inverse set."%string)
           (fun e => report WARNING ("Failed to set inverse: " +:+ e)%string)
       else
         modify_object p (set_constraints remove_child_of_constraints)) ;;
      select_all_DESELECT (restore_deselect_error ctx) ;;
      select_each (restore_select_error ctx) original_selection ;;
      set_active original_active ;;
      mret FINISHED
  end.

(** Running the operator on a scene, with no report made yet, the host
    deciding on the selection calls. *)
Definition run_execute_in (ctx : Context) (s : Scene) : Result Status * State :=
  execute ctx (mkState s []).

(** Running the operator where every selection call succeeds. *)
Definition run_execute (host : Host) (s : Scene) : Result Status * State :=
  run_execute_in (calm host) s.

(** ** Vocabulary of the statements *)

Definition constraint_names (cs : list Constraint) : list nat := c_name <$> cs.

(** The host keeps the names within every constraint stack distinct. *)
Definition distinct_constraint_names (s : Scene) : Prop :=
  map_Forall (fun _ o => NoDup (constraint_names (constraints o))) (objects s).

(** The operator gets past line 82: the armature setting reads as [a],
    [a.pose.bones.get(bone_name)] is [pose_bone], and the prop setting
    reads as [p]. *)
Definition reaches_body (s : Scene) (a : ObjId) (pose_bone : PoseBone) (p : ObjId) : Prop :=
  let props := hand_prop_placer_props s in
  read_pointer s (armature_obj props) = Some a ∧
  (∃ armature pose_bones,
     objects s !! a = Some armature ∧ pose armature = Some pose_bones ∧
     bones_get pose_bones (target_hand_bone_name props) = Some pose_bone) ∧
  read_pointer s (prop_obj props) = Some p.

(** The lookup of line 79 finds no pose bone of the configured name. *)
Definition pose_bone_missing (s : Scene) : Prop :=
  let props := hand_prop_placer_props s in
  ∃ a armature pose_bones,
    read_pointer s (armature_obj props) = Some a ∧
    objects s !! a = Some armature ∧ pose armature = Some pose_bones ∧
    bones_get pose_bones (target_hand_bone_name props) = None.

(** The operator cannot get at the armature's pose bones or at the prop:
    the armature setting reads as [None], or the object it refers to has
    no pose, or the pose bone is found and the prop setting reads as
    [None]. *)
Definition raises_attribute_error (s : Scene) : Prop :=
  let props := hand_prop_placer_props s in
  read_pointer s (armature_obj props) = None ∨
  (∃ a armature,
     read_pointer s (armature_obj props) = Some a ∧
     objects s !! a = Some armature ∧ pose armature = None) ∨
  (∃ a armature pose_bones pose_bone,
     read_pointer s (armature_obj props) = Some a ∧
     objects s !! a = Some armature ∧ pose armature = Some pose_bones ∧
     bones_get pose_bones (target_hand_bone_name props) = Some pose_bone ∧
     read_pointer s (prop_obj props) = None).

(** The bone-following constraint the attach branch leaves at the end of
    the stack [cs]. *)
Definition new_child_of (host : Host) (a : ObjId) (bone_name : string)
    (cs : list Constraint) : Constraint :=
  mkConstraint (fresh_name cs) CHILD_OF (Some a) bone_name
    match childof_inverse host with
    | inl _ => evaluated_inverse host
    | inr m => m
    end.

(** The prop as a completed run leaves it, where the selection calls
    succeed. *)
Definition placed_prop (host : Host) (props : HandPropPlacerProperties)
    (a : ObjId) (pose_bone : PoseBone) (prop : Object) : Object :=
  let cs := remove_child_of_constraints (constraints prop) in
  mkObject (data prop)
    (decompose_scale host (placement_matrix host props pose_bone))
    (assigned_matrix_world host (placement_matrix host props pose_bone))
    (if parent_prop props
     then cs ++ [new_child_of host a (target_hand_bone_name props) cs]
     else cs).

(** The reports of a completed run. *)
Definition placed_reports (host : Host) (props : HandPropPlacerProperties) : list Report :=
  if parent_prop props then
    match childof_inverse host with
    | inl msg => [(WARNING, "Failed to set inverse: " +:+ msg)%string]
    | inr _ => [(INFO, "Constraint inverse set."%string)]
    end
  else [].

(** The settings with another hand-side choice, all else equal. *)
Definition with_hand_side (side : HandSide) (props : HandPropPlacerProperties)
    : HandPropPlacerProperties :=
  mkProps (armature_obj props) (target_hand_bone_name props) (prop_obj props) side
    (offset_x props) (offset_y props) (offset_z props)
    (rotate_x props) (rotate_y props) (rotate_z props)
    (parent_prop props) (apply_prop_scale props).

Definition scene_with_hand_side (side : HandSide) (s : Scene) : Scene :=
  mkScene (objects s) (selected_objects s) (active s)
    (with_hand_side side (hand_prop_placer_props s)).

(** The settings with another choice for the scale toggle, all else
    equal. *)
Definition with_apply_prop_scale (b : bool) (props : HandPropPlacerProperties)
    : HandPropPlacerProperties :=
  mkProps (armature_obj props) (target_hand_bone_name props) (prop_obj props)
    (hand_side props)
    (offset_x props) (offset_y props) (offset_z props)
    (rotate_x props) (rotate_y props) (rotate_z props)
    (parent_prop props) b.

Definition scene_with_apply_prop_scale (b : bool) (s : Scene) : Scene :=
  mkScene (objects s) (selected_objects s) (active s)
    (with_apply_prop_scale b (hand_prop_placer_props s)).

(** The world matrix of a pose bone: the armature object's world matrix
    times the bone's matrix, which is in the armature's space. *)
Definition bone_world_matrix (armature : Object) (pose_bone : PoseBone) : Matrix :=
  matmul (matrix_world armature) (pb_matrix pose_bone).

(** [Matrix @ Vector] for a 4x4 matrix and a 3D vector: the point the
    matrix moves the vector to. *)
Definition transform (m : Matrix) (v : Vector) : Vector :=
  mkVector (c0 (r0 m) * vx v + c1 (r0 m) * vy v + c2 (r0 m) * vz v + c3 (r0 m))%R
           (c0 (r1 m) * vx v + c1 (r1 m) * vy v + c2 (r1 m) * vz v + c3 (r1 m))%R
           (c0 (r2 m) * vx v + c1 (r2 m) * vy v + c2 (r2 m) * vz v + c3 (r2 m))%R.

(** The rotation of the settings as the description has it, against
    which the code's rotation matrix is compared: a vector turned by [deg]
    degrees about the X, the Y and the Z axis, and the three turns in XYZ
    order, about X first, then about Y, then about Z.  None of these is
    taken from the code. *)
Definition turn_about_x (deg : R) (v : Vector) : Vector :=
  let t := (deg * PI / 180)%R in
  mkVector (vx v) (cos t * vy v - sin t * vz v)%R (sin t * vy v + cos t * vz v)%R.

Definition turn_about_y (deg : R) (v : Vector) : Vector :=
  let t := (deg * PI / 180)%R in
  mkVector (cos t * vx v + sin t * vz v)%R (vy v) (- sin t * vx v + cos t * vz v)%R.

Definition turn_about_z (deg : R) (v : Vector) : Vector :=
  let t := (deg * PI / 180)%R in
  mkVector (cos t * vx v - sin t * vy v)%R (sin t * vx v + cos t * vy v)%R (vz v).

Definition turn_xyz_degrees (x y z : R) (v : Vector) : Vector :=
  turn_about_z z (turn_about_y y (turn_about_x x v)).

(** The selection calls that restore the selection (lines 137 to 139)
    all succeed. *)
Definition restore_succeeds (ctx : Context) (s : Scene) : Prop :=
  restore_deselect_error ctx = None ∧
  ∀ i, i ∈ selected_objects s → restore_select_error ctx i = None.

(** ** A sample scene

    An armature with two hand bones and a sword that already carries two
    bone-following constraints and a tracking constraint. *)
Module Sample.
Local Open Scope R_scope.

(** A bone turned half a turn about Z, sitting at (5, 0, 2). *)
Definition hand_matrix : Matrix :=
  mkMatrix (mkRow4 (-1) 0 0 5) (mkRow4 0 (-1) 0 0) (mkRow4 0 0 1 2) (mkRow4 0 0 0 1).

(** The inverse of [hand_matrix]. *)
Definition hand_inverse : Matrix :=
  mkMatrix (mkRow4 (-1) 0 0 5) (mkRow4 0 (-1) 0 0) (mkRow4 0 0 1 (-2)) (mkRow4 0 0 0 1).

(** A sheared bone matrix: its X and Y axes are not at a right angle. *)
Definition sheared_matrix : Matrix :=
  mkMatrix (mkRow4 1 1 0 0) (mkRow4 0 1 0 0) (mkRow4 0 0 1 0) (mkRow4 0 0 0 1).

(** An armature object with the right hand bone at [hand], sitting at
    [world]. *)
Definition armature_at (world hand : Matrix) : Object :=
  mkObject
    (ArmatureData ["hand.R"; "hand.L"]%string
       (Some [mkPoseBone "hand.R" hand; mkPoseBone "hand.L" identity_matrix]))
    (mkVector 1 1 1) world [].

Definition armature : Object := armature_at identity_matrix hand_matrix.

(** The same armature moved by one unit along the world's X axis. *)
Definition moved_matrix : Matrix :=
  mkMatrix (mkRow4 1 0 0 1) (mkRow4 0 1 0 0) (mkRow4 0 0 1 0) (mkRow4 0 0 0 1).

Definition moved_armature : Object := armature_at moved_matrix hand_matrix.

(** The same armature with a sheared hand bone. *)
Definition sheared_armature : Object := armature_at identity_matrix sheared_matrix.

(** The same armature while its pose lacks the right hand bone. *)
Definition stale_armature : Object :=
  mkObject
    (ArmatureData ["hand.R"; "hand.L"]%string
       (Some [mkPoseBone "hand.L" identity_matrix]))
    (mkVector 1 1 1) identity_matrix [].

(** The same armature before the host has built its pose. *)
Definition unposed_armature : Object :=
  mkObject (ArmatureData ["hand.R"; "hand.L"]%string None)
    (mkVector 1 1 1) identity_matrix [].

Definition sword : Object :=
  mkObject MeshData (mkVector 2 2 2) identity_matrix
    [mkConstraint 1 CHILD_OF (Some "Armature"%string) "hand.L" identity_matrix;
     mkConstraint 2 CHILD_OF None "" identity_matrix;
     mkConstraint 3 TRACK_TO None "" identity_matrix].

Definition settings (attach : bool) (ox rx : R) : HandPropPlacerProperties :=
  mkProps (Some "Armature"%string) "hand.R" (Some "Sword"%string) RIGHT
    ox 0 0 rx 0 0 attach true.

Definition scene_of (arm : Object) (props : HandPropPlacerProperties) : Scene :=
  mkScene (<["Armature"%string := arm]> (<["Sword"%string := sword]> ∅))
    {[ "Armature"%string ]} (Some "Armature"%string) props.

Definition scene (attach : bool) (ox rx : R) : Scene :=
  scene_of armature (settings attach ox rx).

Definition stale_scene : Scene := scene_of stale_armature (settings true 0 0).

Definition unposed_scene : Scene := scene_of unposed_armature (settings true 0 0).

Definition moved_scene : Scene := scene_of moved_armature (settings true 0 0).

Definition sheared_scene : Scene := scene_of sheared_armature (settings true 0 0).

(** A host that decomposes every matrix assigned into the rotation
    [turn] and unit scale, whose [to_quaternion] is the half turn about
    Z, the rotation of [hand_matrix], and whose evaluation gives a new
    constraint the inverse of [hand_matrix]: right for the matrices the
    samples give it. *)
Definition host_turning (turn : Quaternion) (inverse : string + Matrix) : Host :=
  mkHost (fun _ => mkQuaternion 0 0 0 1) (fun _ => turn) (fun _ => mkVector 1 1 1)
    hand_inverse inverse.

(** A host whose inverse computation works, and one where it fails; a
    prop placed on [hand_matrix] without further rotation is turned half a
    turn about Z. *)
Definition host_ok : Host :=
  host_turning (mkQuaternion 0 0 0 1) (inr identity_matrix).

Definition host_failing : Host :=
  host_turning (mkQuaternion 0 0 0 1) (inl "no inverse"%string).

(** A context in which the [select_all] that starts the restoring is
    refused. *)
Definition context_refusing_restore : Context :=
  mkContext host_ok None None (Some "context is incorrect"%string) (fun _ => None).

End Sample.

(** The scene a completed run leaves. *)
Definition placed_scene (host : Host) (s : Scene) (a : ObjId) (pose_bone : PoseBone)
    (p : ObjId) (prop : Object) : Scene :=
  mkScene
    (<[p := placed_prop host (hand_prop_placer_props s) a pose_bone prop]> (objects s))
    (selected_objects s) (active s) (hand_prop_placer_props s).

(** ** The settings' defaults

    The defaults declared in [HandPropPlacerProperties]: nothing chosen,
    right hand, zero offset and rotation, both toggles on. *)
Definition default_settings : HandPropPlacerProperties :=
  mkProps None ""%string None RIGHT 0 0 0 0 0 0 true true.

(** The user picks an armature, a bone and a prop and leaves the rest. *)
Definition choose (a : ObjId) (bone_name : string) (p : ObjId)
    (props : HandPropPlacerProperties) : HandPropPlacerProperties :=
  mkProps (Some a) bone_name (Some p) (hand_side props)
    (offset_x props) (offset_y props) (offset_z props)
    (rotate_x props) (rotate_y props) (rotate_z props)
    (parent_prop props) (apply_prop_scale props).

(** ** The panel ([HANDPROP_PT_main_panel])

    [draw] issues calls on [self.layout]; the layout is modelled as the
    list of those calls, in order. *)

Inductive LayoutItem :=
| layout_label (text : string) (icon : option string)
| layout_prop (name : string) (expand : bool)
| layout_prop_search (name : string) (search_in : ObjId) (collection : string) (text : string)
| layout_separator
| layout_operator (idname : string) (icon : string).

Global Instance LayoutItem_eq_dec : EqDecision LayoutItem.
Proof. solve_decision. Defined.

(** [HANDPROP_OT_place_prop.bl_idname] *)
Definition bl_idname : string := "object.hand_prop_placer_place_prop".

(** Lines 159 to 164: what is drawn under the armature field. *)
Definition draw_bone_section (s : Scene) : list LayoutItem :=
  let props := hand_prop_placer_props s in
  match read_pointer s (armature_obj props) with
  | None => []
  | Some a =>
      match objects s !! a with
      | None => []
      | Some armature =>
          if bool_decide (type armature ≠ ARMATURE)
          then [layout_label "Selected object is not an Armature!" (Some "ERROR"%string)]
          else [layout_label "2. Select Hand Bone:" None;
                layout_prop_search "target_hand_bone_name" a "bones" "Bone"]
      end
  end.

(** [HANDPROP_PT_main_panel.draw] *)
Definition draw (s : Scene) : list LayoutItem :=
  [layout_label "1. Select Target Armature:" None;
   layout_prop "armature_obj" false]
  ++ draw_bone_section s
  ++ [layout_separator;
      layout_label "3. Select Prop Object:" None;
      layout_prop "prop_obj" false;
      layout_separator;
      layout_label "4. Hand Side & Placement:" None;
      layout_prop "hand_side" true;
      layout_prop "parent_prop" false;
      layout_prop "apply_prop_scale" false;
      layout_separator;
      layout_label "Offset:" None;
      layout_prop "offset_x" false;
      layout_prop "offset_y" false;
      layout_prop "offset_z" false;
      layout_label "Rotation (Degrees):" None;
      layout_prop "rotate_x" false;
      layout_prop "rotate_y" false;
      layout_prop "rotate_z" false;
      layout_separator;
      layout_operator "object.hand_prop_placer_place_prop" "CONSTRAINT"].

(** The settings fields a layout exposes, in order. *)
Definition drawn_fields (items : list LayoutItem) : list string :=
  omap (fun i => match i with
                 | layout_prop name _ => Some name
                 | layout_prop_search name _ _ _ => Some name
                 | _ => None
                 end) items.

(** ** Registration ([register], [unregister])

    The host's class registry is modelled as the list of the registered
    classes' names, in the order of registration, together with whether
    [bpy.types.Scene] has the attribute [hand_prop_placer_props].
    [bpy.utils.register_class] raises [ValueError] on a class that is
    registered already, [bpy.utils.unregister_class] raises [RuntimeError]
    on one that is not. *)
Module Registration.

Inductive Exception :=
| ValueError (cls : string)
| RuntimeError (cls : string).

Record Registry := mkRegistry {
  registered : list string;
  scene_attr : bool
}.

(** [classes] *)
Definition classes : list string :=
  ["HandPropPlacerProperties"; "HANDPROP_OT_place_prop"; "HANDPROP_PT_main_panel"]%string.

(** [bpy.utils.register_class(cls)] *)
Definition register_class (cls : string) (r : Registry) : Exception + Registry :=
  if bool_decide (cls ∈ registered r) then inl (ValueError cls)
  else inr (mkRegistry (registered r ++ [cls]) (scene_attr r)).

(** [bpy.utils.unregister_class(cls)] *)
Definition unregister_class (cls : string) (r : Registry) : Exception + Registry :=
  if bool_decide (cls ∈ registered r)
  then inr (mkRegistry (filter (fun c => c ≠ cls) (registered r)) (scene_attr r))
  else inl (RuntimeError cls).

(** [for cls in cs: f(cls)]: stops at the first exception, keeping what
    was done before it. *)
Fixpoint for_each_class (f : string -> Registry -> Exception + Registry)
    (cs : list string) (r : Registry) : option Exception * Registry :=
  match cs with
  | [] => (None, r)
  | cls :: rest =>
      match f cls r with
      | inl e => (Some e, r)
      | inr r' => for_each_class f rest r'
      end
  end.

(** [register] *)
Definition register (r : Registry) : option Exception * Registry :=
  match for_each_class register_class classes r with
  | (None, r') => (None, mkRegistry (registered r') true)
  | raised => raised
  end.

(** [unregister] *)
Definition unregister (r : Registry) : option Exception * Registry :=
  let r := if scene_attr r then mkRegistry (registered r) false else r in
  for_each_class unregister_class (reverse classes) r.

End Registration.

(** ** Facts about the mathutils operations *)

Section MathutilsFacts.
Local Open Scope R_scope.

Lemma radians_0 : radians 0 = 0.
Proof. unfold radians. lra. Qed.

Lemma vector_add_zero_r v : vector_add v zero_vector = v.
Proof. destruct v. unfold vector_add, zero_vector. simpl. f_equal; lra. Qed.

Lemma quaternion_rotate_zero q : quaternion_rotate q zero_vector = zero_vector.
Proof. unfold quaternion_rotate, zero_vector. simpl. f_equal; lra. Qed.

Lemma translation_set_translation m v : translation (set_translation m v) = v.
Proof. by destruct v. Qed.

Lemma set_translation_translation m : set_translation m (translation m) = m.
Proof. by destruct m as [[] [] [] []]. Qed.

Lemma euler_xyz_to_quaternion_0 : euler_xyz_to_quaternion 0 0 0 = identity_quaternion.
Proof.
  unfold euler_xyz_to_quaternion, identity_quaternion.
  replace (0 / 2) with 0 by lra. rewrite cos_0, sin_0. f_equal; lra.
Qed.

Lemma to_4x4_identity_quaternion :
  to_4x4 (quaternion_to_matrix identity_quaternion) = identity_matrix.
Proof.
  unfold to_4x4, quaternion_to_matrix, identity_quaternion, identity_matrix, row_to_4.
  simpl. repeat f_equal; lra.
Qed.

Lemma matmul_identity_r m : matmul m identity_matrix = m.
Proof.
  destruct m as [[] [] [] []]. unfold matmul, row_times, identity_matrix. simpl.
  repeat f_equal; lra.
Qed.

(** Multiplying on the right by a padded 3x3 matrix keeps the translation. *)
Lemma translation_matmul_to_4x4 m r :
  translation (matmul m (to_4x4 r)) = translation m.
Proof.
  destruct m as [[] [] [] []], r as [[] [] []].
  unfold translation, matmul, row_times, to_4x4, row_to_4. simpl. f_equal; lra.
Qed.

End MathutilsFacts.

(** ** Facts about the constraint stack *)

Section ConstraintStack.
Implicit Types (cs pre suf : list Constraint) (c : Constraint) (k : nat).

Lemma lookup_constraint_app_notin k pre suf :
  k ∉ constraint_names pre →
  lookup_constraint k (pre ++ suf) = lookup_constraint k suf.
Proof.
  unfold lookup_constraint, constraint_names. induction pre as [|c pre IH]; [done|].
  rewrite fmap_cons, not_elem_of_cons. intros [Hne Hnin]. simpl.
  rewrite bool_decide_eq_false_2 by done. auto.
Qed.

Lemma successor_app_notin k pre suf :
  k ∉ constraint_names pre → successor k (pre ++ suf) = successor k suf.
Proof.
  unfold constraint_names. induction pre as [|c pre IH]; [done|].
  rewrite fmap_cons, not_elem_of_cons. intros [Hne Hnin]. simpl.
  rewrite bool_decide_eq_false_2 by done. auto.
Qed.

Lemma constraints_remove_notin k cs :
  k ∉ constraint_names cs → constraints_remove k cs = cs.
Proof.
  unfold constraints_remove, constraint_names. induction cs as [|c cs IH]; [done|].
  rewrite fmap_cons, not_elem_of_cons. intros [Hne Hnin].
  rewrite filter_cons_True by done. f_equal. auto.
Qed.

(** Unlinking a node of a stack with distinct names takes out that node
    and nothing else. *)
Lemma constraints_remove_middle c pre suf :
  NoDup (constraint_names (pre ++ c :: suf)) →
  constraints_remove (c_name c) (pre ++ c :: suf) = pre ++ suf.
Proof.
  unfold constraint_names. rewrite fmap_app, fmap_cons. intros Hnd.
  apply NoDup_app in Hnd as (_ & Hdisj & Hnd). apply NoDup_cons in Hnd as [Hc _].
  unfold constraints_remove.
  rewrite filter_app, filter_cons_False by (intros H; by apply H).
  fold (constraints_remove (c_name c) pre). fold (constraints_remove (c_name c) suf).
  rewrite !constraints_remove_notin; [done|done|].
  intros Hin. apply (Hdisj _ Hin). left.
Qed.

(** The loop invariant: the nodes already handed out ([pre]) hold no
    bone-following constraint, the link is at the head of the rest. *)
Lemma for_each_remove_child_of suf : ∀ pre fuel,
  NoDup (constraint_names (pre ++ suf)) →
  Forall (λ c, c_type c ≠ CHILD_OF) pre →
  length suf ≤ fuel →
  for_each_constraint fuel remove_if_child_of (c_name <$> head suf) (pre ++ suf)
  = pre ++ filter (λ c, c_type c ≠ CHILD_OF) suf.
Proof.
  induction suf as [|c rest IH]; intros pre fuel Hnd Hpre Hfuel.
  - destruct fuel; done.
  - destruct fuel as [|fuel]; [simpl in Hfuel; lia|]. simpl in Hfuel.
    assert (Hnin : c_name c ∉ constraint_names pre).
    { unfold constraint_names in *. rewrite fmap_app, fmap_cons in Hnd.
      apply NoDup_app in Hnd as (_ & Hdisj & _).
      intros Hin. apply (Hdisj _ Hin). left. }
    cbn [for_each_constraint head fmap option_fmap option_map mbind option_bind].
    rewrite lookup_constraint_app_notin by done.
    unfold lookup_constraint at 1. cbn [find]. rewrite bool_decide_eq_true_2 by done.
    rewrite successor_app_notin by done. cbn [successor].
    rewrite bool_decide_eq_true_2 by done.
    unfold remove_if_child_of. case_bool_decide as Ht.
    + rewrite constraints_remove_middle by done.
      rewrite filter_cons_False by (intros H; by apply H).
      apply IH; [|done|lia].
      unfold constraint_names in *. rewrite fmap_app, fmap_cons in Hnd.
      rewrite fmap_app.
      apply NoDup_app in Hnd as (H1 & H2 & H3). apply NoDup_cons in H3 as [_ H3].
      apply NoDup_app. split_and!; [done| |done].
      intros x Hx Hx'. apply (H2 x Hx). by right.
    + rewrite filter_cons_True by done.
      rewrite (cons_middle c pre rest), (cons_middle c pre), !(assoc_L (++)).
      apply IH; [by rewrite <- (assoc_L (++))| |lia].
      apply Forall_app. split; [done|]. by constructor.
Qed.

(** The loop takes out every bone-following constraint and keeps the
    others in order. *)
Lemma remove_child_of_constraints_filter cs :
  NoDup (constraint_names cs) →
  remove_child_of_constraints cs = filter (λ c, c_type c ≠ CHILD_OF) cs.
Proof.
  intros Hnd. unfold remove_child_of_constraints.
  by apply (for_each_remove_child_of cs [] (length cs)).
Qed.

(** On the sample sword, whose first two constraints are both
    bone-following, the loop leaves the tracking constraint alone. *)
Example remove_child_of_constraints_sample :
  remove_child_of_constraints (constraints Sample.sword)
  = [mkConstraint 3 TRACK_TO None "" identity_matrix].
Proof. reflexivity. Qed.

(** More fuel than the length of the stack changes nothing. *)
Lemma for_each_constraint_enough_fuel cs fuel :
  NoDup (constraint_names cs) → length cs ≤ fuel →
  for_each_constraint fuel remove_if_child_of (c_name <$> head cs) cs
  = remove_child_of_constraints cs.
Proof.
  intros Hnd Hfuel. rewrite remove_child_of_constraints_filter by done.
  by apply (for_each_remove_child_of cs [] fuel).
Qed.

Lemma le_foldr_max (x : nat) (l : list nat) : x ∈ l → x ≤ foldr Nat.max 0 l.
Proof.
  induction l as [|y l IH]; [by intros ?%elem_of_nil|].
  intros [->|Hin]%elem_of_cons; simpl; [lia|]. specialize (IH Hin). lia.
Qed.

Lemma fresh_name_notin cs : fresh_name cs ∉ constraint_names cs.
Proof. intros Hin%le_foldr_max. unfold fresh_name, constraint_names in *. lia. Qed.

Lemma update_constraint_notin k f cs :
  k ∉ constraint_names cs → update_constraint k f cs = cs.
Proof.
  unfold update_constraint, constraint_names. induction cs as [|c cs IH]; [done|].
  rewrite fmap_cons, not_elem_of_cons. intros [Hne Hnin].
  rewrite fmap_cons, bool_decide_eq_false_2 by done. f_equal. auto.
Qed.

Lemma update_constraint_last k f cs c :
  k ∉ constraint_names cs → c_name c = k →
  update_constraint k f (cs ++ [c]) = cs ++ [f c].
Proof.
  intros Hnin Hk. unfold update_constraint. rewrite fmap_app.
  fold (update_constraint k f cs). rewrite update_constraint_notin by done.
  simpl. by rewrite bool_decide_eq_true_2.
Qed.

Lemma count_child_of_removed cs :
  count_child_of (filter (λ c, c_type c ≠ CHILD_OF) cs) = 0.
Proof.
  unfold count_child_of. induction cs as [|c cs IH]; [done|].
  destruct (decide (c_type c = CHILD_OF)) as [Ht|Ht].
  - by rewrite (filter_cons_False (λ c, c_type c ≠ CHILD_OF)) by (intros H; by apply H).
  - rewrite (filter_cons_True (λ c, c_type c ≠ CHILD_OF)) by done.
    by rewrite filter_cons_False.
Qed.

Lemma count_child_of_app cs1 cs2 :
  count_child_of (cs1 ++ cs2) = count_child_of cs1 + count_child_of cs2.
Proof. unfold count_child_of. by rewrite filter_app, length_app. Qed.

End ConstraintStack.

(** ** Running the operator *)

Ltac run_monad :=
  cbv beta iota zeta delta
    [run_execute run_execute_in calm execute mbind M_bind mret M_ret raise get_scene
     modify_scene report try_except_RuntimeError not_none get_object modify_object
     select_all_DESELECT select_set_True set_active view_layer_update
     data_update childof_set_inverse];
  cbn [st_scene st_reports objects selected_objects active hand_prop_placer_props
       ctx_host deselect_error select_prop_error restore_deselect_error
       restore_select_error].

Section Running.
Implicit Types (s : Scene) (objs : gmap ObjId Object) (sel : gset ObjId).

Lemma read_pointer_Some s r i :
  read_pointer s r = Some i ↔ r = Some i ∧ is_Some (objects s !! i).
Proof.
  unfold read_pointer. destruct r as [j|]; [|split; [done|by intros [? _]]].
  destruct (objects s !! j) eqn:Hj; split.
  - intros [= ->]. eauto.
  - by intros [[= ->] _].
  - done.
  - intros [[= ->] [? ?]]. congruence.
Qed.

(** What [poll] checks. *)
Lemma poll_true_inv s :
  poll s = true →
  ∃ a armature p,
    read_pointer s (armature_obj (hand_prop_placer_props s)) = Some a ∧
    objects s !! a = Some armature ∧ type armature = ARMATURE ∧
    read_pointer s (prop_obj (hand_prop_placer_props s)) = Some p ∧
    p ≠ a ∧
    target_hand_bone_name (hand_prop_placer_props s) ∈ data_bones armature.
Proof.
  unfold poll.
  destruct (read_pointer s (armature_obj _)) as [a|] eqn:Harm; [|done].
  destruct (objects s !! a) as [ao|] eqn:Ha; [|done].
  destruct (read_pointer s (prop_obj _)) as [p|] eqn:Hprop;
    [|by rewrite andb_false_r].
  rewrite !andb_true_iff, !bool_decide_eq_true. intros (Ht & Hne & Hin).
  by exists a, ao, p.
Qed.

(** The restoring loop, whatever the host's verdicts: it touches the
    selection only, raises nothing but [RuntimeError], and when it
    completes it has selected exactly the objects of the saved list. *)
Lemma select_each_outcome error objs l : ∀ sel act props r,
  ∃ res sel',
    select_each error l (mkState (mkScene objs sel act props) r)
    = (res, mkState (mkScene objs sel' act props) r) ∧
    (res = Value tt ∨ ∃ msg, res = Raised (RuntimeError msg)) ∧
    (res = Value tt → sel' = list_to_set l ∪ sel) ∧
    ((∀ i, i ∈ l → error i = None) → res = Value tt).
Proof.
  induction l as [|x l IH]; intros sel act props r.
  - exists (Value tt), sel. cbn [select_each]. run_monad.
    split_and!; [done|by left| |done].
    by rewrite list_to_set_nil, (left_id_L ∅ (∪)).
  - cbn [select_each]. destruct (error x) as [msg|] eqn:Hx.
    + exists (Raised (RuntimeError msg)), sel. run_monad.
      split_and!; [done|right; by exists msg|done|].
      intros Hall. rewrite (Hall x) in Hx; [done|left].
    + destruct (IH ({[x]} ∪ sel) act props r) as (res & sel' & Hrun & Hres & Hsel & Hok).
      exists res, sel'. run_monad. rewrite Hrun.
      split_and!; [by destruct Hres as [->|[msg ->]]|done| |].
      * intros Hv. rewrite (Hsel Hv), list_to_set_cons.
        by rewrite (comm_L (∪) {[x]} (list_to_set l)), (assoc_L (∪)).
      * intros Hall. apply Hok. intros i Hi. apply Hall. by right.
Qed.

(** The restoring loop where every call succeeds. *)
Lemma select_each_run objs l : ∀ sel act props r,
  select_each (λ _, None) l (mkState (mkScene objs sel act props) r)
  = (Value tt, mkState (mkScene objs (list_to_set l ∪ sel) act props) r).
Proof.
  intros sel act props r.
  destruct (select_each_outcome (λ _, None) objs l sel act props r)
    as (res & sel' & Hrun & _ & Hsel & Hok).
  rewrite Hrun, (Hok (λ _ _, eq_refl)) in *. by rewrite (Hsel eq_refl).
Qed.

(** The assignments made through the new constraint's handle, and the
    evaluation, all land on the new constraint. *)
Lemma attached_stack host a b cs :
  let k := fresh_name cs in
  let stack :=
    update_constraint k (set_inverse_matrix (evaluated_inverse host))
      (update_constraint k (set_subtarget b)
         (update_constraint k (set_target (Some a)) (constraints_new CHILD_OF cs))) in
  stack = cs ++ [mkConstraint k CHILD_OF (Some a) b (evaluated_inverse host)] ∧
  ∀ m, update_constraint k (set_inverse_matrix m) stack
       = cs ++ [mkConstraint k CHILD_OF (Some a) b m].
Proof.
  intros k stack. subst stack. unfold constraints_new.
  rewrite !update_constraint_last by (done || apply fresh_name_notin).
  split; [done|]. intros m.
  by rewrite update_constraint_last by (done || apply fresh_name_notin).
Qed.

(** A run that finds the pose bone completes where the selection calls
    succeed, and leaves the prop as [placed_prop] says and everything else
    as it was. *)
Lemma run_execute_reaches_body host s a pose_bone p prop :
  reaches_body s a pose_bone p → objects s !! p = Some prop →
  run_execute host s
  = (Value FINISHED,
     mkState
       (mkScene
          (<[p := placed_prop host (hand_prop_placer_props s) a pose_bone prop]>
             (objects s))
          (selected_objects s) (active s) (hand_prop_placer_props s))
       (placed_reports host (hand_prop_placer_props s))).
Proof.
  destruct s as [objs sel act props]. unfold reaches_body. cbn [objects hand_prop_placer_props].
  intros (Harm & (ao & pbs & Ha & Hpose & Hb) & Hprop) Hp.
  destruct (attached_stack host a (target_hand_bone_name props)
              (remove_child_of_constraints (constraints prop))) as [Hstack Hstack'].
  unfold placed_prop, placed_reports, new_child_of.
  run_monad. rewrite Harm, Hprop. run_monad. rewrite Ha, Hpose. run_monad. rewrite Hb.
  destruct (apply_prop_scale props), (parent_prop props), (childof_inverse host).
  all: do 4 (run_monad; rewrite ?lookup_alter_eq, ?Hp, ?select_each_run;
             cbn [fmap option_fmap option_map]; try case_bool_decide).
  all: rewrite ?list_to_set_elements_L, ?(right_id_L ∅ (∪)).
  all: do 3 f_equal.
  all: apply map_eq; intros q; destruct (decide (q = p)) as [->|Hq];
    [rewrite ?lookup_alter_eq, Hp, lookup_insert_eq
    |by rewrite ?lookup_alter_ne, lookup_insert_ne by done].
  all: cbn [fmap option_fmap option_map]; f_equal.
  all: unfold set_constraints, set_matrix_world, set_scale;
    cbn [data scale matrix_world constraints]; f_equal; try done.
  all: cbn [data scale matrix_world constraints] in Hstack, Hstack';
    by rewrite ?Hstack', ?Hstack.
Qed.

(** A run whose lookup of the pose bone fails reports the error and
    leaves the scene as it was, whatever the context. *)
Lemma run_execute_in_pose_bone_missing ctx s :
  pose_bone_missing s →
  run_execute_in ctx s
  = (Value CANCELLED,
     mkState s
       [(ERROR, "Bone '" +:+ target_hand_bone_name (hand_prop_placer_props s)
                +:+ "' not found in pose bones.")%string]).
Proof.
  destruct s as [objs sel act props]. unfold pose_bone_missing.
  cbn [objects hand_prop_placer_props].
  intros (a & ao & pbs & Harm & Ha & Hpose & Hb).
  run_monad. rewrite Harm. run_monad. rewrite Ha, Hpose. run_monad. by rewrite Hb.
Qed.

Lemma run_execute_pose_bone_missing host s :
  pose_bone_missing s →
  run_execute host s
  = (Value CANCELLED,
     mkState s
       [(ERROR, "Bone '" +:+ target_hand_bone_name (hand_prop_placer_props s)
                +:+ "' not found in pose bones.")%string]).
Proof. apply run_execute_in_pose_bone_missing. Qed.

(** A run that cannot read the armature's pose bones or the prop raises
    before anything was changed, whatever the context. *)
Lemma run_execute_in_raises ctx s :
  raises_attribute_error s →
  run_execute_in ctx s = (Raised AttributeError, mkState s []).
Proof.
  destruct s as [objs sel act props]. unfold raises_attribute_error.
  cbn [objects hand_prop_placer_props].
  intros [Harm|[(a & ao & Harm & Ha & Hpose)|(a & ao & pbs & pb & Harm & Ha & Hpose & Hb & Hprop)]].
  - run_monad. by rewrite Harm.
  - run_monad. rewrite Harm. run_monad. by rewrite Ha, Hpose.
  - run_monad. rewrite Harm, Hprop. run_monad. rewrite Ha, Hpose. run_monad.
    rewrite Hb. by destruct (apply_prop_scale props).
Qed.

Lemma run_execute_raises host s :
  raises_attribute_error s →
  run_execute host s = (Raised AttributeError, mkState s []).
Proof. apply run_execute_in_raises. Qed.

(** What a run can be: an exception before anything was changed, the
    cancellation, or the placement. *)
Lemma run_execute_cases s :
  raises_attribute_error s
  ∨ pose_bone_missing s
  ∨ (∃ a pose_bone p prop, reaches_body s a pose_bone p ∧ objects s !! p = Some prop).
Proof.
  unfold raises_attribute_error, pose_bone_missing, reaches_body.
  destruct (read_pointer s (armature_obj _)) as [a|] eqn:Harm; [|by left; left].
  pose proof Harm as [_ [ao Ha]]%read_pointer_Some.
  destruct (pose ao) as [pbs|] eqn:Hpose; [|left; right; left; by exists a, ao].
  destruct (bones_get pbs (target_hand_bone_name (hand_prop_placer_props s)))
    as [pb|] eqn:Hb; [|right; left; by exists a, ao, pbs].
  destruct (read_pointer s (prop_obj _)) as [p|] eqn:Hprop.
  - right; right. pose proof Hprop as [_ [prop Hp]]%read_pointer_Some.
    exists a, pb, p, prop. split; [|done]. split_and!; [done| |done].
    by exists ao, pbs.
  - left. right; right. by exists a, ao, pbs, pb.
Qed.

(** The three cases exclude each other. *)
Lemma reaches_body_not_missing s a pose_bone p :
  reaches_body s a pose_bone p → ¬ pose_bone_missing s.
Proof.
  intros (Harm & (ao & pbs & Ha & Hpose & Hb) & _) (a' & ao' & pbs' & Harm' & Ha' & Hpose' & Hb').
  congruence.
Qed.

Lemma raises_not_missing s : raises_attribute_error s → ¬ pose_bone_missing s.
Proof.
  intros [Harm|[(a & ao & Harm & Ha & Hpose)|(a & ao & pbs & pb & Harm & Ha & Hpose & Hb & Hprop)]]
    (a' & ao' & pbs' & Harm' & Ha' & Hpose' & Hb'); congruence.
Qed.

Lemma reaches_body_not_raises s a pose_bone p :
  reaches_body s a pose_bone p → ¬ raises_attribute_error s.
Proof.
  intros (Harm' & (ao' & pbs' & Ha' & Hpose' & Hb') & Hprop')
    [Harm|[(b & ao & Harm & Ha & Hpose)|(b & ao & pbs & pb & Harm & Ha & Hpose & Hb & Hprop)]];
    congruence.
Qed.

(** A run that returns FINISHED went through the placement. *)
Lemma run_execute_finished_inv host s st' :
  run_execute host s = (Value FINISHED, st') →
  ∃ a pose_bone p prop,
    reaches_body s a pose_bone p ∧ objects s !! p = Some prop ∧
    st' = mkState
            (mkScene
               (<[p := placed_prop host (hand_prop_placer_props s) a pose_bone prop]>
                  (objects s))
               (selected_objects s) (active s) (hand_prop_placer_props s))
            (placed_reports host (hand_prop_placer_props s)).
Proof.
  intros Hrun.
  destruct (run_execute_cases s)
    as [Hraise|[Hmiss|(a & pb & p & prop & Hreach & Hp)]].
  - rewrite (run_execute_raises host s Hraise) in Hrun. congruence.
  - rewrite (run_execute_pose_bone_missing host s Hmiss) in Hrun. congruence.
  - exists a, pb, p, prop. split_and!; [done..|].
    rewrite (run_execute_reaches_body host s a pb p prop Hreach Hp) in Hrun. congruence.
Qed.

(** A run that finds the pose bone, whatever the context: it returns
    FINISHED or raises [RuntimeError]; it returns FINISHED when the
    restoring calls succeed; the prop has been placed either way, and the
    selection is restored when the run returns. *)
Lemma run_execute_in_reaches_body ctx s a pose_bone p prop :
  reaches_body s a pose_bone p → objects s !! p = Some prop →
  ∃ res st' prop' inverse,
    run_execute_in ctx s = (res, st') ∧
    (res = Value FINISHED ∨ ∃ msg, res = Raised (RuntimeError msg)) ∧
    (restore_succeeds ctx s → res = Value FINISHED) ∧
    (res = Value FINISHED →
     selected_objects (st_scene st') = selected_objects s ∧
     active (st_scene st') = active s) ∧
    objects (st_scene st') !! p = Some prop' ∧
    (∀ q, q ≠ p → objects (st_scene st') !! q = objects s !! q) ∧
    matrix_world prop'
    = assigned_matrix_world (ctx_host ctx)
        (placement_matrix (ctx_host ctx) (hand_prop_placer_props s) pose_bone) ∧
    data prop' = data prop ∧
    hand_prop_placer_props (st_scene st') = hand_prop_placer_props s ∧
    constraints prop'
    = (let cs := remove_child_of_constraints (constraints prop) in
       if parent_prop (hand_prop_placer_props s)
       then cs ++ [mkConstraint (fresh_name cs) CHILD_OF (Some a)
                     (target_hand_bone_name (hand_prop_placer_props s)) inverse]
       else cs).
Proof.
  destruct s as [objs sel act props]. unfold reaches_body, restore_succeeds.
  cbn [objects hand_prop_placer_props selected_objects active].
  intros (Harm & (ao & pbs & Ha & Hpose & Hb) & Hprop) Hp.
  destruct ctx as [host e1 e2 e3 e4]. cbn [ctx_host restore_deselect_error restore_select_error].
  destruct (attached_stack host a (target_hand_bone_name props)
              (remove_child_of_constraints (constraints prop))) as [Hstack Hstack'].
  cbn [data scale matrix_world constraints] in Hstack, Hstack'.
  run_monad. rewrite Harm, Hprop. run_monad. rewrite Ha, Hpose. run_monad. rewrite Hb.
  destruct (apply_prop_scale props), (parent_prop props),
    e1 as [m1|], e2 as [m2|], (childof_inverse host) as [m3|inv], e3 as [m4|].
  all: do 4 (run_monad; rewrite ?lookup_alter_eq, ?Hp;
             cbn [fmap option_fmap option_map]; try case_bool_decide).
  all: try match goal with
       | |- context [select_each ?e ?l (mkState (mkScene ?o ?sl ?ac ?pr) ?r)] =>
           destruct (select_each_outcome e o l sl ac pr r)
             as (res & sel' & Hsel & Hres & Hval & Hok);
           rewrite Hsel; clear Hsel;
           destruct Hres as [->|[msg ->]]
       end.
  all: run_monad.
  all: eexists _, _, _, _; split; [reflexivity|].
  all: cbn [st_scene objects selected_objects active hand_prop_placer_props].
  all: rewrite ?lookup_alter_eq, ?Hp; cbn [fmap option_fmap option_map].
  all: unfold set_constraints, set_matrix_world, set_scale;
    cbn [data scale matrix_world constraints].
  all: rewrite ?Hstack', ?Hstack.
  all: split_and!;
    [ (by left) || (right; by eexists)
    | try done
    | try done
    | reflexivity
    | intros q Hq; by rewrite ?lookup_alter_ne by done
    | reflexivity
    | reflexivity
    | reflexivity
    | try reflexivity ].
  all: try (intros [? _]; discriminate).
  all: try (intros [_ Hall]; exfalso;
            assert (Hv : Raised (RuntimeError msg) = Value tt)
              by (apply Hok; intros i Hi; apply Hall; by apply elem_of_elements);
            discriminate Hv).
  all: try (intros _; rewrite (Hval eq_refl), list_to_set_elements_L;
            by rewrite (right_id_L ∅ (∪))).
  Unshelve. all: exact identity_matrix.
Qed.

End Running.

(** ** The sample scene runs *)

Section SampleFacts.

Lemma sample_reaches_body attach ox rx :
  reaches_body (Sample.scene attach ox rx) "Armature"
    (mkPoseBone "hand.R" Sample.hand_matrix) "Sword".
Proof.
  split_and!; [reflexivity| |reflexivity].
  exists Sample.armature, [mkPoseBone "hand.R" Sample.hand_matrix;
                           mkPoseBone "hand.L" identity_matrix].
  split_and!; reflexivity.
Qed.

Lemma sample_prop attach ox rx :
  objects (Sample.scene attach ox rx) !! "Sword" = Some Sample.sword.
Proof. reflexivity. Qed.

Lemma sample_distinct_constraint_names attach ox rx :
  distinct_constraint_names (Sample.scene attach ox rx).
Proof.
  unfold distinct_constraint_names, Sample.scene, Sample.scene_of. cbn [objects].
  apply map_Forall_insert_2; [constructor|].
  apply map_Forall_insert_2; [|apply map_Forall_empty].
  apply (bool_decide_unpack _). reflexivity.
Qed.

Lemma sample_poll attach ox rx : poll (Sample.scene attach ox rx) = true.
Proof. reflexivity. Qed.

Lemma stale_poll : poll Sample.stale_scene = true.
Proof. reflexivity. Qed.

Lemma stale_pose_bone_missing : pose_bone_missing Sample.stale_scene.
Proof.
  exists "Armature", Sample.stale_armature, [mkPoseBone "hand.L" identity_matrix].
  split_and!; reflexivity.
Qed.

End SampleFacts.

(** ** The enablement predicate *)

(** C3. [poll] is true exactly when the armature setting refers to an
    object of armature type, the prop setting refers to an object other
    than the armature, and the configured bone name is among the
    armature's bones. *)
Theorem poll_true_iff (s : Scene) :
  poll s = true ↔
  ∃ a armature p,
    armature_obj (hand_prop_placer_props s) = Some a ∧
    objects s !! a = Some armature ∧ type armature = ARMATURE ∧
    prop_obj (hand_prop_placer_props s) = Some p ∧ is_Some (objects s !! p) ∧
    p ≠ a ∧
    target_hand_bone_name (hand_prop_placer_props s) ∈ data_bones armature.
Proof.
  split.
  - intros (a & ao & p & Harm & Ha & Ht & Hprop & Hne & Hin)%poll_true_inv.
    apply read_pointer_Some in Harm as [Harm _].
    apply read_pointer_Some in Hprop as [Hprop Hp].
    by exists a, ao, p.
  - intros (a & ao & p & Harm & Ha & Ht & Hprop & Hp & Hne & Hin). unfold poll.
    rewrite (proj2 (read_pointer_Some s _ a)) by (split; [done|by rewrite Ha]).
    rewrite Ha, (proj2 (read_pointer_Some s _ p)) by done.
    rewrite !andb_true_iff, !bool_decide_eq_true. done.
Qed.

(** ** The placement *)

Section PlacementFacts.
Local Open Scope R_scope.

Lemma translation_compose_matrix loc rot size :
  translation (compose_matrix loc rot size) = loc.
Proof. by destruct loc. Qed.

Lemma translation_assigned_matrix_world host m :
  translation (assigned_matrix_world host m) = translation m.
Proof. apply translation_compose_matrix. Qed.

(** The first two columns of the rotation matrix of a unit quaternion
    are at a right angle. *)
Lemma quaternion_to_matrix_columns_orthogonal q :
  unit_quaternion q →
  let r := quaternion_to_matrix q in
  vx (m3r0 r) * vy (m3r0 r) + vx (m3r1 r) * vy (m3r1 r) + vx (m3r2 r) * vy (m3r2 r) = 0.
Proof.
  destruct q as [w x y z]. unfold unit_quaternion, quaternion_to_matrix. simpl.
  intros Hunit.
  transitivity (4 * x * y * (1 - (w * w + x * x + y * y + z * z))); [ring|].
  rewrite Hunit. ring.
Qed.

(** With zero offset and zero angles the placement matrix is the bone's. *)
Lemma placement_matrix_zero host props pose_bone :
  offset_x props = 0 → offset_y props = 0 → offset_z props = 0 →
  rotate_x props = 0 → rotate_y props = 0 → rotate_z props = 0 →
  placement_matrix host props pose_bone = pb_matrix pose_bone.
Proof.
  intros Hx Hy Hz Hrx Hry Hrz. unfold placement_matrix.
  rewrite Hx, Hy, Hz, Hrx, Hry, Hrz. fold zero_vector.
  rewrite quaternion_rotate_zero, vector_add_zero_r, set_translation_translation.
  by rewrite radians_0, euler_xyz_to_quaternion_0, to_4x4_identity_quaternion,
    matmul_identity_r.
Qed.

Lemma matmul_set_translation m v r :
  matmul (set_translation m v) (to_4x4 r) = set_translation (matmul m (to_4x4 r)) v.
Proof.
  destruct m as [[] [] [] []], v, r as [[] [] []].
  unfold matmul, set_translation, row_times, to_4x4, row_to_4, set_c3. simpl.
  f_equal; f_equal; ring.
Qed.

(** A 3x3 matrix applied to a vector. *)
Lemma transform_matmul_to_4x4 m r v :
  transform (matmul m (to_4x4 r)) v
  = transform m
      (mkVector (vx (m3r0 r) * vx v + vy (m3r0 r) * vy v + vz (m3r0 r) * vz v)
                (vx (m3r1 r) * vx v + vy (m3r1 r) * vy v + vz (m3r1 r) * vz v)
                (vx (m3r2 r) * vx v + vy (m3r2 r) * vy v + vz (m3r2 r) * vz v)).
Proof.
  destruct m as [[] [] [] []], v, r as [[] [] []].
  unfold transform, matmul, row_times, to_4x4, row_to_4. simpl.
  f_equal; ring.
Qed.

Lemma cos_of_half t : cos t = cos (t / 2) * cos (t / 2) - sin (t / 2) * sin (t / 2).
Proof. rewrite <- cos_2a. f_equal. lra. Qed.

Lemma sin_of_half t : sin t = 2 * sin (t / 2) * cos (t / 2).
Proof. rewrite <- sin_2a. f_equal. lra. Qed.

Lemma sin_square t : sin t * sin t = 1 - cos t * cos t.
Proof. pose proof (sin2_cos2 t) as H. unfold Rsqr in H. lra. Qed.

(** The matrix [Euler((radians x, radians y, radians z), 'XYZ')] gives
    turns a vector by [x] degrees about X, then [y] about Y, then [z]
    about Z. *)
Lemma euler_rotation_turns x y z v :
  let r := quaternion_to_matrix
             (euler_xyz_to_quaternion (radians x) (radians y) (radians z)) in
  mkVector (vx (m3r0 r) * vx v + vy (m3r0 r) * vy v + vz (m3r0 r) * vz v)
           (vx (m3r1 r) * vx v + vy (m3r1 r) * vy v + vz (m3r1 r) * vz v)
           (vx (m3r2 r) * vx v + vy (m3r2 r) * vy v + vz (m3r2 r) * vz v)
  = turn_xyz_degrees x y z v.
Proof.
  intros r. subst r. destruct v as [a b c].
  unfold turn_xyz_degrees, turn_about_x, turn_about_y, turn_about_z.
  replace (x * PI / 180) with (radians x) by (unfold radians; lra).
  replace (y * PI / 180) with (radians y) by (unfold radians; lra).
  replace (z * PI / 180) with (radians z) by (unfold radians; lra).
  generalize (radians x) (radians y) (radians z). clear x y z. intros x y z.
  rewrite (cos_of_half x), (cos_of_half y), (cos_of_half z).
  rewrite (sin_of_half x), (sin_of_half y), (sin_of_half z).
  unfold euler_xyz_to_quaternion, quaternion_to_matrix. cbv zeta. simpl.
  pose proof (sin_square (x / 2)) as Hx.
  pose proof (sin_square (y / 2)) as Hy.
  pose proof (sin_square (z / 2)) as Hz.
  generalize dependent (sin (x / 2)). generalize dependent (cos (x / 2)).
  generalize dependent (sin (y / 2)). generalize dependent (cos (y / 2)).
  generalize dependent (sin (z / 2)). generalize dependent (cos (z / 2)).
  intros ch sh Hz cj sj Hy ci si Hx.
  f_equal; ring [Hx Hy Hz].
Qed.

(** The rotation matrix of the settings (180, 0, 0): half a turn about X. *)
Lemma rotation_matrix_half_turn_x :
  to_4x4 (quaternion_to_matrix
    (euler_xyz_to_quaternion (radians 180) (radians 0) (radians 0)))
  = mkMatrix (mkRow4 1 0 0 0) (mkRow4 0 (-1) 0 0) (mkRow4 0 0 (-1) 0) (mkRow4 0 0 0 1).
Proof.
  unfold euler_xyz_to_quaternion. rewrite radians_0.
  replace (radians 180 / 2) with (PI / 2) by (unfold radians; lra).
  replace (0 / 2) with 0 by lra. rewrite cos_PI2, sin_PI2, cos_0, sin_0.
  unfold to_4x4, quaternion_to_matrix, row_to_4. simpl.
  f_equal; f_equal; lra.
Qed.

End PlacementFacts.

Section Placement.
Variables (host : Host) (s : Scene) (a : ObjId) (pose_bone : PoseBone) (p : ObjId).
Let props := hand_prop_placer_props s.
Hypothesis Hreach : reaches_body s a pose_bone p.

(** The run completes and the prop's world matrix is what the host makes
    of the placement matrix assigned to it. *)
Lemma run_execute_matrix_world :
  ∃ st' prop',
    run_execute host s = (Value FINISHED, st') ∧
    objects (st_scene st') !! p = Some prop' ∧
    matrix_world prop'
    = assigned_matrix_world host (placement_matrix host props pose_bone).
Proof.
  pose proof Hreach as (_ & _ & [_ [prop Hp]]%read_pointer_Some).
  eexists _, _. split; [by apply run_execute_reaches_body|].
  cbn [st_scene objects]. by rewrite lookup_insert_eq.
Qed.

End Placement.

Section SamplePlacements.

Lemma armature_at_reaches_body world hand props :
  armature_obj props = Some "Armature"%string →
  prop_obj props = Some "Sword"%string →
  target_hand_bone_name props = "hand.R"%string →
  reaches_body (Sample.scene_of (Sample.armature_at world hand) props) "Armature"
    (mkPoseBone "hand.R" hand) "Sword".
Proof.
  intros Harm Hprop Hname. unfold reaches_body.
  cbn [hand_prop_placer_props Sample.scene_of]. rewrite Harm, Hprop, Hname.
  split_and!; [reflexivity| |reflexivity].
  exists (Sample.armature_at world hand),
    [mkPoseBone "hand.R" hand; mkPoseBone "hand.L" identity_matrix].
  split_and!; reflexivity.
Qed.

End SamplePlacements.

(** C2 (the code falls short of the claim).  With zero offset and zero
    rotation angles the run places the prop at [pose_bone.matrix], the
    bone's matrix in the space of the armature object, which the code
    calls [bone_matrix_world]; the armature's own world matrix is never
    read.  On the sample armature moved by one unit along X the prop
    lands at (5, 0, 2) while the bone's world matrix sits at (6, 0, 2). *)
Theorem bone_matrix_is_in_armature_space :
  ∃ st' prop',
    run_execute Sample.host_ok Sample.moved_scene = (Value FINISHED, st') ∧
    objects (st_scene st') !! "Sword" = Some prop' ∧
    translation (matrix_world prop') = mkVector 5 0 2 ∧
    translation
      (bone_world_matrix Sample.moved_armature (mkPoseBone "hand.R" Sample.hand_matrix))
    = mkVector 6 0 2 ∧
    matrix_world prop'
    ≠ bone_world_matrix Sample.moved_armature (mkPoseBone "hand.R" Sample.hand_matrix).
Proof.
  assert (Hreach : reaches_body Sample.moved_scene "Armature"
                     (mkPoseBone "hand.R" Sample.hand_matrix) "Sword")
    by (by apply armature_at_reaches_body).
  destruct (run_execute_matrix_world Sample.host_ok _ _ _ _ Hreach)
    as (st' & prop' & Hrun & Hp & Hm).
  assert (Ht : translation (matrix_world prop') = mkVector 5 0 2).
  { rewrite Hm, translation_assigned_matrix_world.
    by rewrite placement_matrix_zero. }
  assert (Hw : translation
                 (bone_world_matrix Sample.moved_armature
                    (mkPoseBone "hand.R" Sample.hand_matrix))
               = mkVector 6 0 2).
  { unfold bone_world_matrix, translation, matmul, row_times. simpl. f_equal; lra. }
  exists st', prop'. split_and!; [done..|].
  intros Heq. rewrite Heq, Hw in Ht. injection Ht as Ht. lra.
Qed.

(** C4. The translation of the prop's resulting world matrix is the
    translation of the bone matrix plus the offset vector rotated by the
    bone matrix's rotation (its quaternion), for every offset. *)
Theorem offset_applied_in_bone_orientation (host : Host) (s : Scene) (a : ObjId)
    (pose_bone : PoseBone) (p : ObjId) :
  let props := hand_prop_placer_props s in
  reaches_body s a pose_bone p →
  ∃ st' prop',
    run_execute host s = (Value FINISHED, st') ∧
    objects (st_scene st') !! p = Some prop' ∧
    translation (matrix_world prop')
    = vector_add (translation (pb_matrix pose_bone))
        (quaternion_rotate (to_quaternion host (pb_matrix pose_bone))
           (mkVector (offset_x props) (offset_y props) (offset_z props))).
Proof.
  intros props Hreach.
  destruct (run_execute_matrix_world host s a pose_bone p Hreach)
    as (st' & prop' & Hrun & Hp & Hm).
  exists st', prop'. split_and!; [done..|].
  rewrite Hm, translation_assigned_matrix_world. unfold placement_matrix.
  by rewrite translation_matmul_to_4x4, translation_set_translation.
Qed.

(** On the sample bone, turned half a turn about Z and sitting at
    (5, 0, 2), the offset (1, 0, 0) moves the prop to (4, 0, 2): along the
    bone's X axis, not the world's. *)
Lemma offset_applied_in_bone_orientation_witness :
  ∃ st' prop',
    run_execute Sample.host_ok (Sample.scene true 1 0) = (Value FINISHED, st') ∧
    objects (st_scene st') !! "Sword" = Some prop' ∧
    translation (matrix_world prop') = mkVector 4 0 2.
Proof.
  destruct (offset_applied_in_bone_orientation Sample.host_ok (Sample.scene true 1 0)
              "Armature" (mkPoseBone "hand.R" Sample.hand_matrix) "Sword"
              (sample_reaches_body true 1 0))
    as (st' & prop' & Hrun & Hp & Ht).
  exists st', prop'. split; [exact Hrun|]. split; [exact Hp|].
  rewrite Ht. unfold vector_add, quaternion_rotate, translation. simpl.
  f_equal; lra.
Defined.

(** C5 (as amended).  The matrix the run assigns to the prop's world
    matrix composes the bone-derived matrix on the right with the rotation
    of the three rotation settings read as degrees, in XYZ order: it moves
    every point to where the offset-translated bone matrix moves the point
    turned by [rotate_x] degrees about X, then [rotate_y] about Y, then
    [rotate_z] about Z.  The prop's resulting world matrix is what the
    host recomposes from the matrix assigned: its translation, with the
    rotation and the scale the host decomposes it into. *)
Theorem rotation_composed_on_the_right (host : Host) (s : Scene) (a : ObjId)
    (pose_bone : PoseBone) (p : ObjId) :
  let props := hand_prop_placer_props s in
  let bone_matrix := pb_matrix pose_bone in
  let translated :=
    set_translation bone_matrix
      (vector_add (translation bone_matrix)
         (quaternion_rotate (to_quaternion host bone_matrix)
            (mkVector (offset_x props) (offset_y props) (offset_z props)))) in
  let new_matrix := placement_matrix host props pose_bone in
  reaches_body s a pose_bone p →
  (∀ v, transform new_matrix v
        = transform translated
            (turn_xyz_degrees (rotate_x props) (rotate_y props) (rotate_z props) v)) ∧
  ∃ st' prop',
    run_execute host s = (Value FINISHED, st') ∧
    objects (st_scene st') !! p = Some prop' ∧
    matrix_world prop'
    = compose_matrix (translation new_matrix) (decompose_rotation host new_matrix)
        (decompose_scale host new_matrix).
Proof.
  intros props bone_matrix translated new_matrix Hreach. split.
  - intros v. subst new_matrix. unfold placement_matrix.
    rewrite transform_matmul_to_4x4. by rewrite euler_rotation_turns.
  - destruct (run_execute_matrix_world host s a pose_bone p Hreach)
      as (st' & prop' & Hrun & Hp & Hm).
    by exists st', prop'.
Qed.

(** On the sample scene with offset (1, 0, 0) and rotate_x = 180: the
    matrix assigned is the bone matrix moved to (4, 0, 2) and turned half
    a turn about X, so it moves the point (0, 1, 0) to (4, 1, 2); a host
    that decomposes it into the half turn about Y and unit scale gives it
    back. *)
Lemma rotation_composed_on_the_right_witness :
  transform
    (placement_matrix (Sample.host_turning (mkQuaternion 0 0 1 0) (inr identity_matrix))
       (Sample.settings true 1 180) (mkPoseBone "hand.R" Sample.hand_matrix))
    (mkVector 0 1 0)
  = mkVector 4 1 2 ∧
  ∃ st' prop',
    run_execute (Sample.host_turning (mkQuaternion 0 0 1 0) (inr identity_matrix))
      (Sample.scene true 1 180)
    = (Value FINISHED, st') ∧
    objects (st_scene st') !! "Sword" = Some prop' ∧
    matrix_world prop'
    = mkMatrix (mkRow4 (-1) 0 0 4) (mkRow4 0 1 0 0) (mkRow4 0 0 (-1) 2)
        (mkRow4 0 0 0 1).
Proof.
  destruct (rotation_composed_on_the_right
              (Sample.host_turning (mkQuaternion 0 0 1 0) (inr identity_matrix))
              (Sample.scene true 1 180)
              "Armature" (mkPoseBone "hand.R" Sample.hand_matrix) "Sword"
              (sample_reaches_body true 1 180))
    as (Hturn & st' & prop' & Hrun & Hp & Hm).
  split.
  - cbn [hand_prop_placer_props Sample.scene Sample.scene_of] in Hturn.
    rewrite Hturn.
    unfold turn_xyz_degrees, turn_about_x, turn_about_y, turn_about_z.
    cbn [Sample.settings rotate_x rotate_y rotate_z offset_x offset_y offset_z
         pb_matrix Sample.host_turning to_quaternion vx vy vz].
    replace (180 * PI / 180)%R with PI by lra.
    replace (0 * PI / 180)%R with 0%R by lra.
    rewrite cos_PI, sin_PI, cos_0, sin_0.
    unfold transform, set_translation, set_c3, vector_add, quaternion_rotate,
      translation. simpl.
    f_equal; lra.
  - exists st', prop'. split; [exact Hrun|]. split; [exact Hp|].
    rewrite Hm. unfold placement_matrix.
    cbn [hand_prop_placer_props Sample.scene Sample.scene_of Sample.settings
         rotate_x rotate_y rotate_z offset_x offset_y offset_z pb_matrix
         Sample.host_turning to_quaternion decompose_rotation decompose_scale].
    rewrite rotation_matrix_half_turn_x.
    unfold compose_matrix, scaled_row, quaternion_to_matrix, translation, matmul,
      row_times, set_translation, set_c3, vector_add, quaternion_rotate. simpl.
    f_equal; f_equal; lra.
Defined.

(** C5 as first stated fails: on the sample armature with a sheared hand
    bone and zero settings the product is the sheared bone matrix, and no
    host that stores a rotation gives a sheared matrix back. *)
Lemma rotation_composed_on_the_right_counterexample :
  poll Sample.sheared_scene = true ∧
  ¬ ∃ host st' prop',
      unit_quaternion (decompose_rotation host Sample.sheared_matrix) ∧
      run_execute host Sample.sheared_scene = (Value FINISHED, st') ∧
      objects (st_scene st') !! "Sword" = Some prop' ∧
      matrix_world prop'
      = matmul
          (set_translation Sample.sheared_matrix
             (vector_add (translation Sample.sheared_matrix)
                (quaternion_rotate (to_quaternion host Sample.sheared_matrix)
                   (mkVector 0 0 0))))
          (to_4x4 (quaternion_to_matrix
             (euler_xyz_to_quaternion (radians 0) (radians 0) (radians 0)))).
Proof.
  split; [reflexivity|].
  intros (host & st' & prop' & Hunit & Hrun & Hp & Hm).
  assert (Hreach : reaches_body Sample.sheared_scene "Armature"
                     (mkPoseBone "hand.R" Sample.sheared_matrix) "Sword")
    by (by apply armature_at_reaches_body).
  destruct (run_execute_matrix_world host _ _ _ _ Hreach)
    as (st2 & prop2 & Hrun2 & Hp2 & Hm2).
  rewrite Hrun in Hrun2. injection Hrun2 as <-.
  rewrite Hp in Hp2. injection Hp2 as <-.
  rewrite placement_matrix_zero in Hm2 by reflexivity. cbn [pb_matrix] in Hm2.
  fold zero_vector in Hm.
  rewrite quaternion_rotate_zero, vector_add_zero_r, set_translation_translation,
    radians_0, euler_xyz_to_quaternion_0, to_4x4_identity_quaternion,
    matmul_identity_r in Hm.
  rewrite Hm in Hm2. clear Hm.
  pose proof (quaternion_to_matrix_columns_orthogonal _ Hunit) as Horth.
  cbv zeta in Horth.
  unfold assigned_matrix_world, compose_matrix, scaled_row, Sample.sheared_matrix in Hm2.
  destruct (quaternion_to_matrix (decompose_rotation host _)) as [[a b c] [d e f] [g h i]].
  destruct (decompose_scale host _) as [sx sy sz].
  cbn [m3r0 m3r1 m3r2 vx vy vz] in *.
  pose proof (f_equal (λ m, c0 (r0 m)) Hm2) as H00.
  pose proof (f_equal (λ m, c1 (r0 m)) Hm2) as H01.
  pose proof (f_equal (λ m, c0 (r1 m)) Hm2) as H10.
  pose proof (f_equal (λ m, c1 (r1 m)) Hm2) as H11.
  pose proof (f_equal (λ m, c0 (r2 m)) Hm2) as H20.
  pose proof (f_equal (λ m, c1 (r2 m)) Hm2) as H21.
  cbn [r0 r1 r2 c0 c1] in H00, H01, H10, H11, H20, H21.
  assert (E : ((a * sx) * (b * sy) + (d * sx) * (e * sy) + (g * sx) * (h * sy)
               = sx * sy * (a * b + d * e + g * h))%R) by ring.
  rewrite <- H00, <- H01, <- H10, <- H11, <- H20, <- H21, Horth in E. lra.
Qed.

(** ** Constraints, selection, errors *)

(** C1. After a run that completes the prop carries exactly one
    bone-following constraint when attachment is requested and none when
    it is declined, however many it carried before. *)
Theorem completed_run_child_of_count (host : Host) (s : Scene) (st' : State) :
  distinct_constraint_names s →
  run_execute host s = (Value FINISHED, st') →
  ∃ p prop',
    prop_obj (hand_prop_placer_props s) = Some p ∧
    objects (st_scene st') !! p = Some prop' ∧
    count_child_of (constraints prop')
    = if parent_prop (hand_prop_placer_props s) then 1 else 0.
Proof.
  intros Hnames (a & pb & p & prop & Hreach & Hp & ->)%run_execute_finished_inv.
  pose proof Hreach as (_ & _ & [Hprop _]%read_pointer_Some).
  exists p, (placed_prop host (hand_prop_placer_props s) a pb prop).
  split_and!; [done|by cbn [st_scene objects]; rewrite lookup_insert_eq|].
  unfold placed_prop. cbn [constraints].
  rewrite (remove_child_of_constraints_filter (constraints prop))
    by exact (Hnames p prop Hp).
  destruct (parent_prop (hand_prop_placer_props s)).
  - rewrite count_child_of_app, count_child_of_removed. reflexivity.
  - apply count_child_of_removed.
Qed.

(** The sample sword carries two bone-following constraints before. *)
Lemma completed_run_child_of_count_witness :
  count_child_of (constraints Sample.sword) = 2 ∧
  ∃ p prop',
    prop_obj (hand_prop_placer_props (Sample.scene true 0 0)) = Some p ∧
    objects (st_scene (snd (run_execute Sample.host_ok (Sample.scene true 0 0)))) !! p
    = Some prop' ∧
    count_child_of (constraints prop') = 1.
Proof.
  split; [reflexivity|].
  apply (completed_run_child_of_count Sample.host_ok (Sample.scene true 0 0)).
  - apply sample_distinct_constraint_names.
  - rewrite (run_execute_reaches_body _ _ _ _ _ _
               (sample_reaches_body true 0 0) (sample_prop true 0 0)).
    reflexivity.
Defined.

(** C8. After a run that completes, with or without attachment, the set
    of selected objects and the active object are those from before. *)
Theorem completed_run_restores_selection (host : Host) (s : Scene) (st' : State) :
  run_execute host s = (Value FINISHED, st') →
  selected_objects (st_scene st') = selected_objects s ∧
  active (st_scene st') = active s.
Proof.
  by intros (a & pb & p & prop & _ & _ & ->)%run_execute_finished_inv.
Qed.

Lemma completed_run_restores_selection_witness :
  selected_objects (st_scene (snd (run_execute Sample.host_ok (Sample.scene true 0 0))))
  = {[ "Armature" ]} ∧
  active (st_scene (snd (run_execute Sample.host_ok (Sample.scene true 0 0))))
  = Some "Armature".
Proof.
  apply (completed_run_restores_selection Sample.host_ok (Sample.scene true 0 0)).
  rewrite (run_execute_reaches_body _ _ _ _ _ _
             (sample_reaches_body true 0 0) (sample_prop true 0 0)).
  reflexivity.
Defined.

(** C6. When the configured bone is not among the armature's pose bones
    the run reports an error, returns CANCELLED, and leaves the scene
    (every object's transform, scale and constraints, the selection, the
    active object) exactly as it was. *)
Theorem missing_pose_bone_cancels (host : Host) (s : Scene) :
  pose_bone_missing s →
  ∃ st',
    run_execute host s = (Value CANCELLED, st') ∧
    st_reports st'
    = [(ERROR, "Bone '" +:+ target_hand_bone_name (hand_prop_placer_props s)
               +:+ "' not found in pose bones.")%string] ∧
    st_scene st' = s.
Proof.
  intros Hmiss. eexists. split; [by apply run_execute_pose_bone_missing|done].
Qed.

Lemma missing_pose_bone_cancels_witness :
  poll Sample.stale_scene = true ∧
  ∃ st',
    run_execute Sample.host_ok Sample.stale_scene = (Value CANCELLED, st') ∧
    st_reports st' = [(ERROR, "Bone 'hand.R' not found in pose bones."%string)] ∧
    st_scene st' = Sample.stale_scene.
Proof.
  split; [reflexivity|].
  apply (missing_pose_bone_cancels Sample.host_ok Sample.stale_scene).
  exists "Armature", Sample.stale_armature, [mkPoseBone "hand.L" identity_matrix].
  split; [reflexivity|]. split; [reflexivity|]. split; reflexivity.
Defined.



(** C10 (as amended).  Whatever the host decides on the selection calls
    and on the inverse computation: the run returns CANCELLED exactly when
    the lookup of the pose bone is reached and fails; a run that returns
    anything else returns FINISHED; and a run that finds the pose bone and
    the prop returns FINISHED whenever the selection calls that restore
    the selection succeed, also when the calls inside the try block or the
    inverse computation raise. *)
Theorem cancelled_iff_pose_bone_missing (ctx : Context) (s : Scene) :
  (fst (run_execute_in ctx s) = Value CANCELLED ↔ pose_bone_missing s) ∧
  (∀ status, fst (run_execute_in ctx s) = Value status →
             ¬ pose_bone_missing s → status = FINISHED) ∧
  (∀ a pose_bone p,
     reaches_body s a pose_bone p → restore_succeeds ctx s →
     fst (run_execute_in ctx s) = Value FINISHED).
Proof.
  destruct (run_execute_cases s)
    as [Hraise|[Hmiss|(a & pb & p & prop & Hreach & Hp)]].
  - pose proof (raises_not_missing s Hraise) as Hnot.
    rewrite (run_execute_in_raises ctx s Hraise). cbn [fst].
    split_and!; [split; [done|by intros ?]|done|].
    intros a pb p Hreach _. by destruct (reaches_body_not_raises s a pb p Hreach).
  - rewrite (run_execute_in_pose_bone_missing ctx s Hmiss). cbn [fst].
    split_and!; [done|by intros status _ Hnot|].
    intros a pb p Hreach _. by destruct (reaches_body_not_missing s a pb p Hreach).
  - pose proof (reaches_body_not_missing s a pb p Hreach) as Hnot.
    destruct (run_execute_in_reaches_body ctx s a pb p prop Hreach Hp)
      as (res & st' & prop' & inv & Hrun & Hres & Hok & _).
    rewrite Hrun. cbn [fst]. split_and!.
    + split; [|by intros ?]. by destruct Hres as [->|[msg ->]].
    + intros status Hst _.
      destruct Hres as [->|[msg ->]]; [by injection Hst as <-|discriminate Hst].
    + intros _ _ _ _ Hrestore. by apply Hok.
Qed.

(** On the sample scene the first [select_all] is refused and the
    inverse would fail too: the run still returns FINISHED. *)
Lemma cancelled_iff_pose_bone_missing_witness :
  fst (run_execute_in
         (mkContext Sample.host_failing (Some "context is incorrect"%string) None None
            (λ _, None))
         (Sample.scene true 0 0))
  = Value FINISHED.
Proof.
  apply (proj2 (proj2 (cancelled_iff_pose_bone_missing
                         (mkContext Sample.host_failing
                            (Some "context is incorrect"%string) None None (λ _, None))
                         (Sample.scene true 0 0)))
           "Armature" (mkPoseBone "hand.R" Sample.hand_matrix) "Sword").
  - apply sample_reaches_body.
  - split; [reflexivity|]. intros i _. reflexivity.
Defined.

(** C10 as first stated fails.  With [poll] true and no failed lookup the
    run need not return FINISHED: on an armature whose pose is not built
    line 79 raises [AttributeError], and where the [select_all] of line
    137 is refused the run raises [RuntimeError] after placing the prop. *)
Lemma cancelled_iff_pose_bone_missing_counterexample :
  (poll Sample.unposed_scene = true ∧
   ¬ pose_bone_missing Sample.unposed_scene ∧
   fst (run_execute Sample.host_ok Sample.unposed_scene) = Raised AttributeError) ∧
  (poll (Sample.scene true 0 0) = true ∧
   ¬ pose_bone_missing (Sample.scene true 0 0) ∧
   fst (run_execute_in Sample.context_refusing_restore (Sample.scene true 0 0))
   = Raised (RuntimeError "context is incorrect")).
Proof.
  split.
  - assert (Hraise : raises_attribute_error Sample.unposed_scene).
    { right; left. exists "Armature"%string, Sample.unposed_armature.
      split_and!; reflexivity. }
    split; [reflexivity|]. split; [by apply raises_not_missing|].
    by rewrite (run_execute_raises Sample.host_ok _ Hraise).
  - split; [reflexivity|].
    split; [exact (reaches_body_not_missing _ _ _ _ (sample_reaches_body true 0 0))|].
    destruct (run_execute_in_reaches_body Sample.context_refusing_restore _ _ _ _ _
                (sample_reaches_body true 0 0) (sample_prop true 0 0))
      as (res & st' & prop' & inv & Hrun & _).
    rewrite Hrun. cbn [fst].
    revert Hrun. unfold Sample.context_refusing_restore.
    run_monad. cbn. intros Hrun. by injection Hrun as <- _.
Qed.

(** C9. Two runs on scenes that differ only in the hand-side setting end
    with the same status, the same reports, the same objects (so the same
    prop transform and constraint stack), the same selection and the same
    active object. *)
Theorem hand_side_is_not_read (host : Host) (s : Scene) (side1 side2 : HandSide) :
  let run1 := run_execute host (scene_with_hand_side side1 s) in
  let run2 := run_execute host (scene_with_hand_side side2 s) in
  fst run1 = fst run2 ∧
  st_reports (snd run1) = st_reports (snd run2) ∧
  objects (st_scene (snd run1)) = objects (st_scene (snd run2)) ∧
  selected_objects (st_scene (snd run1)) = selected_objects (st_scene (snd run2)) ∧
  active (st_scene (snd run1)) = active (st_scene (snd run2)).
Proof.
  intros run1 run2. subst run1 run2.
  destruct (run_execute_cases s)
    as [Hraise|[Hmiss|(a & pb & p & prop & Hreach & Hp)]].
  - rewrite (run_execute_raises host (scene_with_hand_side side1 s) Hraise).
    rewrite (run_execute_raises host (scene_with_hand_side side2 s) Hraise).
    done.
  - rewrite (run_execute_pose_bone_missing host (scene_with_hand_side side1 s) Hmiss).
    rewrite (run_execute_pose_bone_missing host (scene_with_hand_side side2 s) Hmiss).
    done.
  - rewrite (run_execute_reaches_body host (scene_with_hand_side side1 s)
               a pb p prop Hreach Hp).
    rewrite (run_execute_reaches_body host (scene_with_hand_side side2 s)
               a pb p prop Hreach Hp).
    done.
Qed.


(** ** Further properties of the operator *)

Section PlacedProp.
Implicit Types (cs : list Constraint) (c : Constraint).

Lemma not_child_of_filter_idemp cs :
  filter (λ c, c_type c ≠ CHILD_OF) (filter (λ c, c_type c ≠ CHILD_OF) cs)
  = filter (λ c, c_type c ≠ CHILD_OF) cs.
Proof.
  induction cs as [|c cs IH]; [done|].
  destruct (decide (c_type c ≠ CHILD_OF)) as [Ht|Ht].
  - rewrite (filter_cons_True _ c cs) by done.
    rewrite filter_cons_True by done. by rewrite IH.
  - by rewrite (filter_cons_False _ c cs) by done.
Qed.

Lemma constraint_names_filter_NoDup (P : Constraint → Prop) `{∀ c, Decision (P c)} cs :
  NoDup (constraint_names cs) → NoDup (constraint_names (filter P cs)).
Proof.
  unfold constraint_names. induction cs as [|c cs IH]; [done|].
  rewrite fmap_cons, NoDup_cons. intros [Hnin Hnd].
  destruct (decide (P c)).
  - rewrite filter_cons_True, fmap_cons, NoDup_cons by done. split; [|auto].
    intros (c' & Hc' & [_ Hin]%list_elem_of_filter)%list_elem_of_fmap.
    apply Hnin. rewrite Hc'. by apply list_elem_of_fmap_2.
  - rewrite filter_cons_False by done. auto.
Qed.

(** The stack of the placed prop, when the names were distinct: the
    constraints that are not bone-following, then the new one if
    attachment is requested. *)
Lemma placed_prop_constraints host props a pose_bone prop :
  NoDup (constraint_names (constraints prop)) →
  let kept := filter (λ c, c_type c ≠ CHILD_OF) (constraints prop) in
  constraints (placed_prop host props a pose_bone prop)
  = if parent_prop props
    then kept ++ [new_child_of host a (target_hand_bone_name props) kept]
    else kept.
Proof.
  intros Hnd kept. unfold placed_prop. cbn [constraints].
  by rewrite remove_child_of_constraints_filter.
Qed.

Lemma placed_prop_names_NoDup host props a pose_bone prop :
  NoDup (constraint_names (constraints prop)) →
  NoDup (constraint_names (constraints (placed_prop host props a pose_bone prop))).
Proof.
  intros Hnd. rewrite placed_prop_constraints by done.
  pose proof (constraint_names_filter_NoDup (λ c, c_type c ≠ CHILD_OF) _ Hnd) as Hk.
  destruct (parent_prop props); [|done].
  unfold constraint_names in *. rewrite fmap_app. apply NoDup_app.
  split_and!; [done| |apply NoDup_singleton].
  intros x Hx [->|[]%elem_of_nil]%elem_of_cons.
  by apply (fresh_name_notin (filter (λ c, c_type c ≠ CHILD_OF) (constraints prop))).
Qed.

(** Placing a placed prop again changes nothing. *)
Lemma placed_prop_idemp host props a pose_bone prop :
  NoDup (constraint_names (constraints prop)) →
  placed_prop host props a pose_bone (placed_prop host props a pose_bone prop)
  = placed_prop host props a pose_bone prop.
Proof.
  intros Hnd.
  pose proof (placed_prop_names_NoDup host props a pose_bone prop Hnd) as Hnd'.
  pose proof (placed_prop_constraints host props a pose_bone _ Hnd') as H2.
  pose proof (placed_prop_constraints host props a pose_bone _ Hnd) as H1.
  cbv zeta in H1, H2.
  destruct (placed_prop host props a pose_bone (placed_prop host props a pose_bone prop))
    as [d2 s2 m2 c2] eqn:E2.
  destruct (placed_prop host props a pose_bone prop) as [d1 s1 m1 c1] eqn:E1.
  cbn [constraints] in *.
  unfold placed_prop in E2. cbn [data scale matrix_world constraints] in E2.
  unfold placed_prop in E1. cbn [data scale matrix_world constraints] in E1.
  injection E2 as <- <- <- _. injection E1 as <- <- <- _.
  f_equal.
  rewrite H2, H1. destruct (parent_prop props).
  - rewrite filter_app, not_child_of_filter_idemp.
    rewrite (filter_cons_False _ (new_child_of _ _ _ _)) by (intros H; by apply H).
    rewrite filter_nil. by rewrite (right_id_L [] (++)).
  - by rewrite not_child_of_filter_idemp.
Qed.

End PlacedProp.

Section RunAgain.
Implicit Types (s : Scene).

Lemma placed_prop_data host props a pose_bone prop :
  data (placed_prop host props a pose_bone prop) = data prop.
Proof. done. Qed.

(** In the scene a run leaves, every object has the data it had. *)
Lemma placed_scene_lookup host s a pose_bone p prop q :
  objects s !! p = Some prop →
  ∃ o', objects (placed_scene host s a pose_bone p prop) !! q = o' ∧
        data <$> o' = data <$> objects s !! q.
Proof.
  intros Hp. eexists. split; [done|]. cbn [placed_scene objects].
  destruct (decide (q = p)) as [->|Hq].
  - by rewrite lookup_insert_eq, Hp.
  - by rewrite lookup_insert_ne.
Qed.

Lemma placed_scene_read_pointer host s a pose_bone p prop r :
  objects s !! p = Some prop →
  read_pointer (placed_scene host s a pose_bone p prop) r = read_pointer s r.
Proof.
  intros Hp. unfold read_pointer. destruct r as [q|]; [|done].
  destruct (placed_scene_lookup host s a pose_bone p prop q Hp) as (o' & -> & Hd).
  destruct o', (objects s !! q); done.
Qed.

Lemma placed_scene_reaches_body host s a pose_bone p prop :
  reaches_body s a pose_bone p → objects s !! p = Some prop →
  reaches_body (placed_scene host s a pose_bone p prop) a pose_bone p.
Proof.
  intros (Harm & (ao & pbs & Ha & Hpose & Hb) & Hprop) Hp.
  unfold reaches_body. rewrite !placed_scene_read_pointer by done.
  split_and!; [done| |done].
  destruct (placed_scene_lookup host s a pose_bone p prop a Hp) as (o' & Ho' & Hd).
  rewrite Ha in Hd. destruct o' as [ao'|]; [|done]. injection Hd as Hd.
  exists ao', pbs. split_and!; [done| |done].
  unfold pose in *. by rewrite Hd.
Qed.

Lemma placed_scene_poll host s a pose_bone p prop :
  objects s !! p = Some prop →
  poll (placed_scene host s a pose_bone p prop) = poll s.
Proof.
  intros Hp. unfold poll. rewrite !placed_scene_read_pointer by done.
  cbn [placed_scene hand_prop_placer_props].
  destruct (read_pointer s (armature_obj _)) as [a'|]; [|done].
  destruct (placed_scene_lookup host s a pose_bone p prop a' Hp) as (o' & Ho' & Hd).
  cbn [placed_scene] in Ho'. rewrite Ho'.
  destruct o' as [ao'|], (objects s !! a') as [ao|]; try done.
  injection Hd as Hd. unfold type, data_bones. by rewrite Hd.
Qed.

End RunAgain.

(** X1. A completed run changes no object but the prop, keeps the prop's
    data (so its type), and keeps the settings. *)
Theorem completed_run_touches_only_prop (host : Host) (s : Scene) (st' : State) :
  run_execute host s = (Value FINISHED, st') →
  ∃ p prop prop',
    prop_obj (hand_prop_placer_props s) = Some p ∧
    objects s !! p = Some prop ∧
    objects (st_scene st') !! p = Some prop' ∧
    data prop' = data prop ∧
    (∀ q, q ≠ p → objects (st_scene st') !! q = objects s !! q) ∧
    hand_prop_placer_props (st_scene st') = hand_prop_placer_props s.
Proof.
  intros (a & pb & p & prop & Hreach & Hp & ->)%run_execute_finished_inv.
  pose proof Hreach as (_ & _ & [Hprop _]%read_pointer_Some).
  exists p, prop, (placed_prop host (hand_prop_placer_props s) a pb prop).
  cbn [st_scene objects hand_prop_placer_props].
  split_and!; [done|done|by rewrite lookup_insert_eq|done| |done].
  intros q Hq. by rewrite lookup_insert_ne.
Qed.

Lemma completed_run_touches_only_prop_witness :
  ∃ p prop prop',
    prop_obj (hand_prop_placer_props (Sample.scene true 1 0)) = Some p ∧
    objects (Sample.scene true 1 0) !! p = Some prop ∧
    objects (st_scene (snd (run_execute Sample.host_ok (Sample.scene true 1 0)))) !! p
    = Some prop' ∧
    data prop' = data prop ∧
    (∀ q, q ≠ p →
       objects (st_scene (snd (run_execute Sample.host_ok (Sample.scene true 1 0)))) !! q
       = objects (Sample.scene true 1 0) !! q) ∧
    hand_prop_placer_props
      (st_scene (snd (run_execute Sample.host_ok (Sample.scene true 1 0))))
    = hand_prop_placer_props (Sample.scene true 1 0).
Proof.
  apply (completed_run_touches_only_prop Sample.host_ok (Sample.scene true 1 0)).
  rewrite (run_execute_reaches_body _ _ _ _ _ _
             (sample_reaches_body true 1 0) (sample_prop true 1 0)).
  reflexivity.
Defined.

(** X2. The scale toggle has no effect on what a run leaves: two runs on
    scenes that differ only in [apply_prop_scale] end with the same status,
    reports, objects (so the same prop scale), selection and active
    object.  The assignment of line 108 rewrites the scale that line 89
    reset. *)
Theorem apply_prop_scale_has_no_effect (host : Host) (s : Scene) (b1 b2 : bool) :
  let run1 := run_execute host (scene_with_apply_prop_scale b1 s) in
  let run2 := run_execute host (scene_with_apply_prop_scale b2 s) in
  fst run1 = fst run2 ∧
  st_reports (snd run1) = st_reports (snd run2) ∧
  objects (st_scene (snd run1)) = objects (st_scene (snd run2)) ∧
  selected_objects (st_scene (snd run1)) = selected_objects (st_scene (snd run2)) ∧
  active (st_scene (snd run1)) = active (st_scene (snd run2)).
Proof.
  intros run1 run2. subst run1 run2.
  destruct (run_execute_cases s)
    as [Hraise|[Hmiss|(a & pb & p & prop & Hreach & Hp)]].
  - rewrite (run_execute_raises host (scene_with_apply_prop_scale b1 s) Hraise).
    rewrite (run_execute_raises host (scene_with_apply_prop_scale b2 s) Hraise).
    done.
  - rewrite (run_execute_pose_bone_missing host (scene_with_apply_prop_scale b1 s) Hmiss).
    rewrite (run_execute_pose_bone_missing host (scene_with_apply_prop_scale b2 s) Hmiss).
    done.
  - rewrite (run_execute_reaches_body host (scene_with_apply_prop_scale b1 s)
               a pb p prop Hreach Hp).
    rewrite (run_execute_reaches_body host (scene_with_apply_prop_scale b2 s)
               a pb p prop Hreach Hp).
    done.
Qed.

(** X3. A completed run keeps the prop's constraints that are not
    bone-following: the same ones, unchanged, in the same order. *)
Theorem completed_run_keeps_other_constraints (host : Host) (s : Scene) (st' : State) :
  distinct_constraint_names s →
  run_execute host s = (Value FINISHED, st') →
  ∃ p prop prop',
    prop_obj (hand_prop_placer_props s) = Some p ∧
    objects s !! p = Some prop ∧
    objects (st_scene st') !! p = Some prop' ∧
    filter (λ c, c_type c ≠ CHILD_OF) (constraints prop')
    = filter (λ c, c_type c ≠ CHILD_OF) (constraints prop).
Proof.
  intros Hnames (a & pb & p & prop & Hreach & Hp & ->)%run_execute_finished_inv.
  pose proof Hreach as (_ & _ & [Hprop _]%read_pointer_Some).
  exists p, prop, (placed_prop host (hand_prop_placer_props s) a pb prop).
  cbn [st_scene objects]. split_and!; [done|done|by rewrite lookup_insert_eq|].
  rewrite placed_prop_constraints by exact (Hnames p prop Hp).
  destruct (parent_prop (hand_prop_placer_props s)).
  - rewrite filter_app, not_child_of_filter_idemp.
    rewrite (filter_cons_False _ (new_child_of _ _ _ _)) by (intros H; by apply H).
    by rewrite filter_nil, (right_id_L [] (++)).
  - apply not_child_of_filter_idemp.
Qed.

Lemma completed_run_keeps_other_constraints_witness :
  ∃ p prop prop',
    prop_obj (hand_prop_placer_props (Sample.scene true 0 0)) = Some p ∧
    objects (Sample.scene true 0 0) !! p = Some prop ∧
    objects (st_scene (snd (run_execute Sample.host_ok (Sample.scene true 0 0)))) !! p
    = Some prop' ∧
    filter (λ c, c_type c ≠ CHILD_OF) (constraints prop')
    = filter (λ c, c_type c ≠ CHILD_OF) (constraints prop).
Proof.
  apply (completed_run_keeps_other_constraints Sample.host_ok (Sample.scene true 0 0)).
  - apply sample_distinct_constraint_names.
  - rewrite (run_execute_reaches_body _ _ _ _ _ _
               (sample_reaches_body true 0 0) (sample_prop true 0 0)).
    reflexivity.
Defined.

(** X4. When attachment is requested and the host computes the inverse
    [m], the run reports INFO and the last constraint of the prop's stack
    is the new bone-following one: target the armature, subtarget the
    configured bone, inverse matrix [m]. *)
Theorem attach_stores_inverse (host : Host) (s : Scene) (a : ObjId)
    (pose_bone : PoseBone) (p : ObjId) (prop : Object) (m : Matrix) :
  let props := hand_prop_placer_props s in
  reaches_body s a pose_bone p →
  objects s !! p = Some prop →
  parent_prop props = true →
  childof_inverse host = inr m →
  ∃ st' prop' c,
    run_execute host s = (Value FINISHED, st') ∧
    st_reports st' = [(INFO, "Constraint inverse set."%string)] ∧
    objects (st_scene st') !! p = Some prop' ∧
    last (constraints prop') = Some c ∧
    c_type c = CHILD_OF ∧ target c = Some a ∧
    subtarget c = target_hand_bone_name props ∧ inverse_matrix c = m ∧
    c_name c ∉ constraint_names (remove_child_of_constraints (constraints prop)).
Proof.
  intros props Hreach Hp Hparent Hinv. eexists _, _, _.
  split; [by apply run_execute_reaches_body|].
  cbn [st_scene st_reports objects]. rewrite lookup_insert_eq.
  unfold placed_reports, placed_prop. fold props. rewrite Hparent, Hinv.
  split; [done|]. split; [done|]. cbn [constraints]. rewrite last_snoc.
  split_and!; try done.
  - unfold new_child_of. cbn [inverse_matrix]. by rewrite Hinv.
  - apply fresh_name_notin.
Qed.

Lemma attach_stores_inverse_witness :
  ∃ st' prop' c,
    run_execute Sample.host_ok (Sample.scene true 0 0) = (Value FINISHED, st') ∧
    st_reports st' = [(INFO, "Constraint inverse set."%string)] ∧
    objects (st_scene st') !! "Sword" = Some prop' ∧
    last (constraints prop') = Some c ∧
    c_type c = CHILD_OF ∧ target c = Some "Armature"%string ∧
    subtarget c = "hand.R"%string ∧ inverse_matrix c = identity_matrix ∧
    c_name c ∉ constraint_names (remove_child_of_constraints (constraints Sample.sword)).
Proof.
  apply (attach_stores_inverse Sample.host_ok (Sample.scene true 0 0)
           "Armature" (mkPoseBone "hand.R" Sample.hand_matrix) "Sword" Sample.sword
           identity_matrix).
  - apply sample_reaches_body.
  - reflexivity.
  - reflexivity.
  - reflexivity.
Defined.

(** X5. Running the operator again on the scene a completed run left
    changes nothing: it completes with the same reports and leaves the
    same scene. *)
Theorem completed_run_idempotent (host : Host) (s : Scene) (st' : State) :
  distinct_constraint_names s →
  run_execute host s = (Value FINISHED, st') →
  run_execute host (st_scene st') = (Value FINISHED, st').
Proof.
  intros Hnames (a & pb & p & prop & Hreach & Hp & ->)%run_execute_finished_inv.
  cbn [st_scene].
  change (mkScene _ _ _ _) with (placed_scene host s a pb p prop) at 1.
  rewrite (run_execute_reaches_body host _ a pb p
             (placed_prop host (hand_prop_placer_props s) a pb prop)
             (placed_scene_reaches_body host s a pb p prop Hreach Hp))
    by (cbn [placed_scene objects]; apply lookup_insert_eq).
  cbn [placed_scene objects selected_objects active hand_prop_placer_props].
  rewrite placed_prop_idemp by exact (Hnames p prop Hp).
  by rewrite insert_insert_eq.
Qed.

Lemma completed_run_idempotent_witness :
  run_execute Sample.host_ok
    (st_scene (snd (run_execute Sample.host_ok (Sample.scene true 1 180))))
  = (Value FINISHED, snd (run_execute Sample.host_ok (Sample.scene true 1 180))).
Proof.
  apply (completed_run_idempotent Sample.host_ok (Sample.scene true 1 180)).
  - apply sample_distinct_constraint_names.
  - rewrite (run_execute_reaches_body _ _ _ _ _ _
               (sample_reaches_body true 1 180) (sample_prop true 1 180)).
    reflexivity.
Defined.

(** X6. Whatever way a run ends, the names within every constraint stack
    are still distinct afterwards if they were before. *)
Theorem run_keeps_constraint_names_distinct (host : Host) (s : Scene)
    (r : Result Status) (st' : State) :
  distinct_constraint_names s →
  run_execute host s = (r, st') →
  distinct_constraint_names (st_scene st').
Proof.
  intros Hnames Hrun.
  destruct (run_execute_cases s)
    as [Hraise|[Hmiss|(a & pb & p & prop & Hreach & Hp)]].
  - rewrite (run_execute_raises host s Hraise) in Hrun. by injection Hrun as _ <-.
  - rewrite (run_execute_pose_bone_missing host s Hmiss) in Hrun.
    by injection Hrun as _ <-.
  - rewrite (run_execute_reaches_body host s a pb p prop Hreach Hp) in Hrun.
    injection Hrun as _ <-. cbn [st_scene]. unfold distinct_constraint_names.
    cbn [objects]. apply map_Forall_insert_2; [|done].
    apply placed_prop_names_NoDup. exact (Hnames p prop Hp).
Qed.

Lemma run_keeps_constraint_names_distinct_witness :
  distinct_constraint_names
    (st_scene (snd (run_execute Sample.host_failing (Sample.scene true 0 0)))).
Proof.
  apply (run_keeps_constraint_names_distinct Sample.host_failing (Sample.scene true 0 0)
           (fst (run_execute Sample.host_failing (Sample.scene true 0 0)))).
  - apply sample_distinct_constraint_names.
  - by destruct (run_execute Sample.host_failing (Sample.scene true 0 0)).
Defined.

(** X7. A run never changes whether the operator is enabled: [poll] on
    the scene it leaves is [poll] on the scene it found. *)
Theorem run_keeps_poll (host : Host) (s : Scene) :
  poll (st_scene (snd (run_execute host s))) = poll s.
Proof.
  destruct (run_execute_cases s)
    as [Hraise|[Hmiss|(a & pb & p & prop & Hreach & Hp)]].
  - by rewrite (run_execute_raises host s Hraise).
  - by rewrite (run_execute_pose_bone_missing host s Hmiss).
  - rewrite (run_execute_reaches_body host s a pb p prop Hreach Hp).
    cbn [snd st_scene]. by apply (placed_scene_poll host s a pb p prop).
Qed.

Section RefusedRestore.

(** On the sample scene, where the [select_all] of line 137 is refused. *)
Lemma sample_refused_restore :
  ∃ st',
    run_execute_in Sample.context_refusing_restore (Sample.scene true 0 0)
    = (Raised (RuntimeError "context is incorrect"), st').
Proof.
  destruct (run_execute_in_reaches_body Sample.context_refusing_restore _ _ _ _ _
              (sample_reaches_body true 0 0) (sample_prop true 0 0))
    as (res & st' & prop' & inv & Hrun & _).
  exists st'. rewrite Hrun. f_equal.
  revert Hrun. unfold Sample.context_refusing_restore.
  run_monad. cbn. intros Hrun. by injection Hrun as <- _.
Qed.

End RefusedRestore.

(** X8. Whatever the host decides on the selection calls, a run raises
    in two ways only: [AttributeError] before anything was changed or
    reported (armature unset or without pose, or prop unset), or
    [RuntimeError] from the selection calls that restore the selection
    (lines 137 to 139), after the prop was placed. *)
Theorem run_exceptions (ctx : Context) (s : Scene) (e : Exception) (st' : State) :
  run_execute_in ctx s = (Raised e, st') →
  (e = AttributeError ∧ raises_attribute_error s ∧ st' = mkState s [])
  ∨ (∃ msg a pose_bone p prop',
       e = RuntimeError msg ∧
       reaches_body s a pose_bone p ∧
       ¬ restore_succeeds ctx s ∧
       objects (st_scene st') !! p = Some prop' ∧
       matrix_world prop'
       = assigned_matrix_world (ctx_host ctx)
           (placement_matrix (ctx_host ctx) (hand_prop_placer_props s) pose_bone)).
Proof.
  intros Hrun.
  destruct (run_execute_cases s)
    as [Hraise|[Hmiss|(a & pb & p & prop & Hreach & Hp)]].
  - rewrite (run_execute_in_raises ctx s Hraise) in Hrun.
    injection Hrun as <- <-. by left.
  - by rewrite (run_execute_in_pose_bone_missing ctx s Hmiss) in Hrun.
  - destruct (run_execute_in_reaches_body ctx s a pb p prop Hreach Hp)
      as (res & st2 & prop' & inv & Hrun2 & Hres & Hok & _ & Hp' & _ & Hm & _).
    rewrite Hrun in Hrun2. injection Hrun2 as <- <-.
    destruct Hres as [Hres|[msg Hres]]; [done|]. injection Hres as ->.
    right. exists msg, a, pb, p, prop'. split_and!; [done|done| |done|done].
    intros Hrestore. by specialize (Hok Hrestore).
Qed.

Lemma run_exceptions_witness :
  ∃ e st',
    run_execute_in Sample.context_refusing_restore (Sample.scene true 0 0)
    = (Raised e, st') ∧
    ((e = AttributeError ∧ raises_attribute_error (Sample.scene true 0 0) ∧
      st' = mkState (Sample.scene true 0 0) [])
     ∨ (∃ msg a pose_bone p prop',
          e = RuntimeError msg ∧
          reaches_body (Sample.scene true 0 0) a pose_bone p ∧
          ¬ restore_succeeds Sample.context_refusing_restore (Sample.scene true 0 0) ∧
          objects (st_scene st') !! p = Some prop' ∧
          matrix_world prop'
          = assigned_matrix_world Sample.host_ok
              (placement_matrix Sample.host_ok (Sample.settings true 0 0) pose_bone))).
Proof.
  destruct sample_refused_restore as [st' Hrun].
  exists (RuntimeError "context is incorrect"), st'. split; [exact Hrun|].
  exact (run_exceptions Sample.context_refusing_restore _ _ _ Hrun).
Defined.

(** X9. Offset and rotation settings act apart: the placement matrix is
    the bone matrix times the rotation matrix, with its translation set to
    the bone's translation plus the rotated offset.  The rotation settings
    do not move the prop and the offset does not turn it. *)
Theorem placement_matrix_rotation_then_offset (host : Host)
    (props : HandPropPlacerProperties) (pose_bone : PoseBone) :
  let bone_matrix := pb_matrix pose_bone in
  let rotation :=
    to_4x4 (quaternion_to_matrix
      (euler_xyz_to_quaternion (radians (rotate_x props)) (radians (rotate_y props))
         (radians (rotate_z props)))) in
  placement_matrix host props pose_bone
  = set_translation (matmul bone_matrix rotation)
      (vector_add (translation bone_matrix)
         (quaternion_rotate (to_quaternion host bone_matrix)
            (mkVector (offset_x props) (offset_y props) (offset_z props)))).
Proof.
  intros bone_matrix rotation. unfold placement_matrix.
  apply matmul_set_translation.
Qed.

(** X10. With an armature, a bone and a prop chosen and every other
    setting at its default, a run that finds the bone returns FINISHED,
    assigns the bone's matrix to the prop, so that the prop sits at the
    bone's translation with the rotation and scale the host decomposes the
    bone's matrix into, and leaves the prop exactly one bone-following
    constraint. *)
Theorem default_settings_place_and_attach (host : Host) (s : Scene) (a : ObjId)
    (bone_name : string) (pose_bone : PoseBone) (p : ObjId) :
  distinct_constraint_names s →
  hand_prop_placer_props s = choose a bone_name p default_settings →
  reaches_body s a pose_bone p →
  ∃ st' prop',
    run_execute host s = (Value FINISHED, st') ∧
    objects (st_scene st') !! p = Some prop' ∧
    matrix_world prop' = assigned_matrix_world host (pb_matrix pose_bone) ∧
    translation (matrix_world prop') = translation (pb_matrix pose_bone) ∧
    scale prop' = decompose_scale host (pb_matrix pose_bone) ∧
    count_child_of (constraints prop') = 1.
Proof.
  intros Hnames Hprops Hreach.
  pose proof Hreach as (_ & _ & [_ [prop Hp]]%read_pointer_Some).
  eexists _, _. split; [by apply run_execute_reaches_body|].
  cbn [st_scene objects]. rewrite lookup_insert_eq. split; [done|].
  rewrite placed_prop_constraints by exact (Hnames p prop Hp).
  unfold placed_prop. cbn [matrix_world scale]. rewrite Hprops.
  rewrite placement_matrix_zero by done.
  split_and!; [done|apply translation_assigned_matrix_world|done|].
  cbn [choose default_settings parent_prop].
  rewrite count_child_of_app, count_child_of_removed. reflexivity.
Qed.

Lemma default_settings_place_and_attach_witness :
  ∃ st' prop',
    run_execute Sample.host_ok (Sample.scene true 0 0) = (Value FINISHED, st') ∧
    objects (st_scene st') !! "Sword" = Some prop' ∧
    matrix_world prop' = assigned_matrix_world Sample.host_ok Sample.hand_matrix ∧
    translation (matrix_world prop') = translation Sample.hand_matrix ∧
    scale prop' = decompose_scale Sample.host_ok Sample.hand_matrix ∧
    count_child_of (constraints prop') = 1.
Proof.
  apply (default_settings_place_and_attach Sample.host_ok (Sample.scene true 0 0)
           "Armature" "hand.R" (mkPoseBone "hand.R" Sample.hand_matrix) "Sword").
  - apply sample_distinct_constraint_names.
  - reflexivity.
  - apply sample_reaches_body.
Defined.

(** X20. The count of bone-following constraints and the restoring of the
    selection do not depend on the selection calls of the try block: in
    every context, a run that returns FINISHED leaves the prop exactly one
    bone-following constraint when attachment is requested and none when
    it is declined, and leaves the selection and the active object as they
    were. *)
Theorem completed_run_in_any_context (ctx : Context) (s : Scene) (st' : State) :
  distinct_constraint_names s →
  run_execute_in ctx s = (Value FINISHED, st') →
  selected_objects (st_scene st') = selected_objects s ∧
  active (st_scene st') = active s ∧
  ∃ p prop',
    prop_obj (hand_prop_placer_props s) = Some p ∧
    objects (st_scene st') !! p = Some prop' ∧
    count_child_of (constraints prop')
    = if parent_prop (hand_prop_placer_props s) then 1 else 0.
Proof.
  intros Hnames Hrun.
  destruct (run_execute_cases s)
    as [Hraise|[Hmiss|(a & pb & p & prop & Hreach & Hp)]].
  - by rewrite (run_execute_in_raises ctx s Hraise) in Hrun.
  - by rewrite (run_execute_in_pose_bone_missing ctx s Hmiss) in Hrun.
  - destruct (run_execute_in_reaches_body ctx s a pb p prop Hreach Hp)
      as (res & st2 & prop' & inv & Hrun2 & _ & _ & Hsel & Hp' & _ & _ & _ & _ & Hcs).
    rewrite Hrun in Hrun2. injection Hrun2 as <- <-.
    destruct (Hsel eq_refl) as [Hs Ha].
    pose proof Hreach as (_ & _ & [Hprop _]%read_pointer_Some).
    split_and!; [done|done|]. exists p, prop'. split_and!; [done|done|].
    rewrite Hcs. cbv zeta.
    rewrite (remove_child_of_constraints_filter (constraints prop))
      by exact (Hnames p prop Hp).
    destruct (parent_prop (hand_prop_placer_props s)).
    + rewrite count_child_of_app, count_child_of_removed. reflexivity.
    + apply count_child_of_removed.
Qed.

(** On the sample scene, the [select_all] of the try block being refused. *)
Lemma completed_run_in_any_context_witness :
  let ctx := mkContext Sample.host_ok (Some "context is incorrect"%string) None None
               (λ _, None) in
  selected_objects (st_scene (snd (run_execute_in ctx (Sample.scene true 0 0))))
  = {[ "Armature" ]} ∧
  active (st_scene (snd (run_execute_in ctx (Sample.scene true 0 0))))
  = Some "Armature" ∧
  ∃ p prop',
    prop_obj (hand_prop_placer_props (Sample.scene true 0 0)) = Some p ∧
    objects (st_scene (snd (run_execute_in ctx (Sample.scene true 0 0)))) !! p
    = Some prop' ∧
    count_child_of (constraints prop') = 1.
Proof.
  intros ctx.
  apply (completed_run_in_any_context ctx (Sample.scene true 0 0)).
  - apply sample_distinct_constraint_names.
  - destruct (run_execute_in_reaches_body ctx _ _ _ _ _
                (sample_reaches_body true 0 0) (sample_prop true 0 0))
      as (res & st' & prop' & inv & Hrun & _ & Hok & _).
    rewrite Hrun. cbn [snd]. rewrite Hok; [done|].
    split; [reflexivity|]. intros i _. reflexivity.
Defined.

(** X21. A selection call refused inside the try block is handled like
    a failed inverse computation: when attachment is requested, the
    [select_all] or the [select_set] of lines 123 and 124 raises
    [RuntimeError] and the calls that restore the selection succeed, the
    run returns FINISHED with the single warning carrying the message,
    restores the selection and the active object, and leaves the new
    bone-following constraint with the inverse the evaluation of line 120
    gave it. *)
Theorem refused_selection_is_reported (ctx : Context) (s : Scene) (a : ObjId)
    (pose_bone : PoseBone) (p : ObjId) (prop : Object) (msg : string) :
  let props := hand_prop_placer_props s in
  let cs := remove_child_of_constraints (constraints prop) in
  reaches_body s a pose_bone p →
  objects s !! p = Some prop →
  parent_prop props = true →
  deselect_error ctx = Some msg
  ∨ (deselect_error ctx = None ∧ select_prop_error ctx = Some msg) →
  restore_succeeds ctx s →
  ∃ st' prop',
    run_execute_in ctx s = (Value FINISHED, st') ∧
    st_reports st' = [(WARNING, "Failed to set inverse: " +:+ msg)%string] ∧
    objects (st_scene st') !! p = Some prop' ∧
    constraints prop'
    = cs ++ [mkConstraint (fresh_name cs) CHILD_OF (Some a)
               (target_hand_bone_name props) (evaluated_inverse (ctx_host ctx))] ∧
    selected_objects (st_scene st') = selected_objects s ∧
    active (st_scene st') = active s.
Proof.
  intros props cs. subst props cs.
  destruct s as [objs sel act props]. unfold reaches_body, restore_succeeds.
  cbn [objects hand_prop_placer_props selected_objects active].
  intros (Harm & (ao & pbs & Ha & Hpose & Hb) & Hprop) Hp Hparent Herr [He3 He4].
  destruct ctx as [host e1 e2 e3 e4].
  cbn [ctx_host deselect_error select_prop_error restore_deselect_error
       restore_select_error] in *.
  subst e3.
  destruct (attached_stack host a (target_hand_bone_name props)
              (remove_child_of_constraints (constraints prop))) as [Hstack _].
  cbn [data scale matrix_world constraints] in Hstack.
  run_monad. rewrite Harm, Hprop. run_monad. rewrite Ha, Hpose. run_monad. rewrite Hb.
  rewrite Hparent.
  destruct (apply_prop_scale props), Herr as [->|[-> ->]].
  all: do 4 (run_monad; rewrite ?lookup_alter_eq, ?Hp;
             cbn [fmap option_fmap option_map]; try case_bool_decide).
  all: match goal with
       | |- context [select_each ?e ?l (mkState (mkScene ?o ?sl ?ac ?pr) ?r)] =>
           destruct (select_each_outcome e o l sl ac pr r)
             as (res & sel' & Hsel & _ & Hval & Hok);
           rewrite Hsel; clear Hsel;
           rewrite (Hok (λ i Hi, He4 i (proj1 (elem_of_elements _ _) Hi))) in *
       end.
  all: run_monad.
  all: eexists _, _; split; [reflexivity|].
  all: cbn [st_scene st_reports objects selected_objects active].
  all: rewrite ?lookup_alter_eq, ?Hp; cbn [fmap option_fmap option_map].
  all: unfold set_constraints, set_matrix_world, set_scale;
    cbn [data scale matrix_world constraints].
  all: rewrite ?Hstack.
  all: split_and!; [done|done|done| |done].
  all: rewrite (Hval eq_refl), list_to_set_elements_L; by rewrite (right_id_L ∅ (∪)).
Qed.

Lemma refused_selection_is_reported_witness :
  ∃ st' prop',
    run_execute_in
      (mkContext Sample.host_ok (Some "context is incorrect"%string) None None
         (λ _, None))
      (Sample.scene true 0 0)
    = (Value FINISHED, st') ∧
    st_reports st'
    = [(WARNING, "Failed to set inverse: context is incorrect"%string)] ∧
    objects (st_scene st') !! "Sword" = Some prop' ∧
    constraints prop'
    = [mkConstraint 3 TRACK_TO None "" identity_matrix;
       mkConstraint 4 CHILD_OF (Some "Armature"%string) "hand.R" Sample.hand_inverse] ∧
    selected_objects (st_scene st') = {[ "Armature"%string ]} ∧
    active (st_scene st') = Some "Armature"%string.
Proof.
  destruct (refused_selection_is_reported
              (mkContext Sample.host_ok (Some "context is incorrect"%string) None None
                 (λ _, None))
              (Sample.scene true 0 0)
              "Armature" (mkPoseBone "hand.R" Sample.hand_matrix) "Sword" Sample.sword
              "context is incorrect")
    as (st' & prop' & Hrun & Hreports & Hp & Hcs & Hsel & Hact).
  - apply sample_reaches_body.
  - reflexivity.
  - reflexivity.
  - by left.
  - split; [reflexivity|]. intros i _. reflexivity.
  - exists st', prop'.
    split; [exact Hrun|]. split; [exact Hreports|]. split; [exact Hp|].
    split; [rewrite Hcs; reflexivity|]. split; [exact Hsel|exact Hact].
Defined.

Section AnyContext.
Implicit Types (s : Scene).

(** [poll] reads the settings, which objects exist, and their data. *)
Lemma poll_data_ext s s' :
  hand_prop_placer_props s' = hand_prop_placer_props s →
  (∀ q, data <$> objects s' !! q = data <$> objects s !! q) →
  poll s' = poll s.
Proof.
  intros Hprops Hdata.
  assert (Hread : ∀ r, read_pointer s' r = read_pointer s r).
  { intros [q|]; [|done]. unfold read_pointer. specialize (Hdata q).
    by destruct (objects s' !! q), (objects s !! q). }
  unfold poll. rewrite Hprops, !Hread.
  destruct (read_pointer s (armature_obj _)) as [a|]; [|done].
  pose proof (Hdata a) as Ha.
  destruct (objects s' !! a) as [ao'|], (objects s !! a) as [ao|]; try done.
  injection Ha as Ha. unfold type, data_bones. by rewrite Ha.
Qed.

Lemma attached_names_NoDup (cs : list Constraint) (c : Constraint) :
  NoDup (constraint_names cs) → c_name c = fresh_name cs →
  NoDup (constraint_names (cs ++ [c])).
Proof.
  intros Hnd Hc. unfold constraint_names in *. rewrite fmap_app. apply NoDup_app.
  split_and!; [done| |apply NoDup_singleton].
  intros x Hx [->|[]%elem_of_nil]%elem_of_cons. rewrite Hc in Hx.
  by apply (fresh_name_notin cs).
Qed.

End AnyContext.

(** X22. Whatever the host decides on the selection calls and however
    the run ends, it leaves the settings as they were, changes no object
    but the prop, keeps every object's data (so its type and its bones),
    so that [poll] is what it was, and keeps the names within every
    constraint stack distinct. *)
Theorem run_in_any_context_frame (ctx : Context) (s : Scene) (r : Result Status)
    (st' : State) :
  run_execute_in ctx s = (r, st') →
  hand_prop_placer_props (st_scene st') = hand_prop_placer_props s ∧
  (∀ q, prop_obj (hand_prop_placer_props s) ≠ Some q →
        objects (st_scene st') !! q = objects s !! q) ∧
  (∀ q, data <$> objects (st_scene st') !! q = data <$> objects s !! q) ∧
  poll (st_scene st') = poll s ∧
  (distinct_constraint_names s → distinct_constraint_names (st_scene st')).
Proof.
  intros Hrun.
  destruct (run_execute_cases s)
    as [Hraise|[Hmiss|(a & pb & p & prop & Hreach & Hp)]].
  - rewrite (run_execute_in_raises ctx s Hraise) in Hrun. by injection Hrun as _ <-.
  - rewrite (run_execute_in_pose_bone_missing ctx s Hmiss) in Hrun.
    by injection Hrun as _ <-.
  - destruct (run_execute_in_reaches_body ctx s a pb p prop Hreach Hp)
      as (res & st2 & prop' & inv & Hrun2 & _ & _ & _ & Hp' & Hothers & _ & Hdata
          & Hprops & Hcs).
    rewrite Hrun in Hrun2. injection Hrun2 as <- <-.
    pose proof Hreach as (_ & _ & [Hprop _]%read_pointer_Some).
    assert (Hd : ∀ q, data <$> objects (st_scene st') !! q = data <$> objects s !! q).
    { intros q. destruct (decide (q = p)) as [->|Hq].
      - rewrite Hp', Hp. cbn [fmap option_fmap option_map]. by rewrite Hdata.
      - by rewrite Hothers. }
    split_and!; [done| |done|by apply poll_data_ext|].
    + intros q Hq. apply Hothers. intros ->. by rewrite Hprop in Hq.
    + intros Hnames q o' Ho'. destruct (decide (q = p)) as [->|Hq].
      * rewrite Hp' in Ho'. injection Ho' as <-. rewrite Hcs. cbv zeta.
        pose proof (Hnames p prop Hp) as Hnd. cbn beta in Hnd.
        rewrite (remove_child_of_constraints_filter (constraints prop)) by done.
        pose proof (constraint_names_filter_NoDup (λ c, c_type c ≠ CHILD_OF) _ Hnd) as Hk.
        destruct (parent_prop (hand_prop_placer_props s)); [|done].
        by apply attached_names_NoDup.
      * rewrite Hothers in Ho' by done. exact (Hnames q o' Ho').
Qed.

(** On the sample scene, where the [select_all] of line 137 is refused
    and the run ends in [RuntimeError]. *)
Lemma run_in_any_context_frame_witness :
  let st' := snd (run_execute_in Sample.context_refusing_restore (Sample.scene true 0 0)) in
  hand_prop_placer_props (st_scene st') = Sample.settings true 0 0 ∧
  (∀ q, Some "Sword"%string ≠ Some q →
        objects (st_scene st') !! q = objects (Sample.scene true 0 0) !! q) ∧
  (∀ q, data <$> objects (st_scene st') !! q
        = data <$> objects (Sample.scene true 0 0) !! q) ∧
  poll (st_scene st') = true ∧
  (distinct_constraint_names (Sample.scene true 0 0) →
   distinct_constraint_names (st_scene st')).
Proof.
  apply (run_in_any_context_frame Sample.context_refusing_restore (Sample.scene true 0 0)
           (fst (run_execute_in Sample.context_refusing_restore (Sample.scene true 0 0)))).
  by destruct (run_execute_in Sample.context_refusing_restore (Sample.scene true 0 0)).
Defined.

(** ** The panel *)

Section Panel.
Implicit Types (s : Scene).

(** The three shapes of the section under the armature field. *)
Lemma draw_bone_section_cases s :
  (draw_bone_section s = [] ∧
   read_pointer s (armature_obj (hand_prop_placer_props s)) = None)
  ∨ (∃ a armature,
       draw_bone_section s
       = [layout_label "Selected object is not an Armature!" (Some "ERROR"%string)] ∧
       read_pointer s (armature_obj (hand_prop_placer_props s)) = Some a ∧
       objects s !! a = Some armature ∧ type armature ≠ ARMATURE)
  ∨ (∃ a armature,
       draw_bone_section s
       = [layout_label "2. Select Hand Bone:" None;
          layout_prop_search "target_hand_bone_name" a "bones" "Bone"] ∧
       read_pointer s (armature_obj (hand_prop_placer_props s)) = Some a ∧
       objects s !! a = Some armature ∧ type armature = ARMATURE).
Proof.
  unfold draw_bone_section.
  destruct (read_pointer s (armature_obj _)) as [a|] eqn:Harm; [|by left].
  pose proof Harm as [_ [ao Ha]]%read_pointer_Some. rewrite Ha.
  case_bool_decide as Ht.
  - right; left. by exists a, ao.
  - right; right. exists a, ao. split_and!; [done..|].
    by destruct (decide (type ao = ARMATURE)).
Qed.

End Panel.

(** X11. Whatever the scene, the panel ends with the button of the
    place-prop operator, and draws no other operator button. *)
Theorem draw_ends_with_operator (s : Scene) :
  ∃ before,
    draw s = before ++ [layout_operator bl_idname "CONSTRAINT"] ∧
    ∀ idname icon, layout_operator idname icon ∉ before.
Proof.
  unfold draw.
  destruct (draw_bone_section_cases s)
    as [[-> _]|[(a & ao & -> & _)|(a & ao & -> & _)]].
  all: cbn [app];
    match goal with |- ∃ before, ?l = _ ∧ _ => exists (removelast l) end;
    cbn [removelast]; split; [reflexivity|].
  all: intros idname icon Hin.
  all: repeat (apply elem_of_cons in Hin as [Hin|Hin]; [discriminate Hin|]).
  all: by apply elem_of_nil in Hin.
Qed.

(** X12. The bone search field is drawn exactly when the armature setting
    refers to an object of armature type, and then it searches that
    object's bones; the "not an Armature" error label is drawn exactly when
    the setting refers to an object of another type. *)
Theorem draw_bone_field_iff (s : Scene) :
  (∀ a,
     layout_prop_search "target_hand_bone_name" a "bones" "Bone" ∈ draw s ↔
     read_pointer s (armature_obj (hand_prop_placer_props s)) = Some a ∧
     ∃ armature, objects s !! a = Some armature ∧ type armature = ARMATURE) ∧
  (layout_label "Selected object is not an Armature!" (Some "ERROR"%string) ∈ draw s ↔
   ∃ a armature,
     read_pointer s (armature_obj (hand_prop_placer_props s)) = Some a ∧
     objects s !! a = Some armature ∧ type armature ≠ ARMATURE).
Proof.
  unfold draw.
  destruct (draw_bone_section_cases s)
    as [[-> Harm]|[(a & ao & -> & Harm & Ha & Ht)|(a & ao & -> & Harm & Ha & Ht)]].
  - split; [intros a'|]; (split; [intros Hin|]).
    + cbn [app] in Hin.
      repeat (apply elem_of_cons in Hin as [Hin|Hin]; [discriminate Hin|]).
      by apply elem_of_nil in Hin.
    + intros [? _]. congruence.
    + cbn [app] in Hin.
      repeat (apply elem_of_cons in Hin as [Hin|Hin]; [discriminate Hin|]).
      by apply elem_of_nil in Hin.
    + intros (? & ? & ? & _). congruence.
  - split; [intros a'|]; (split; [intros Hin|]).
    + cbn [app] in Hin.
      repeat (apply elem_of_cons in Hin as [Hin|Hin]; [discriminate Hin|]).
      by apply elem_of_nil in Hin.
    + intros [Harm' (ao' & Ha' & Ht')]. congruence.
    + by exists a, ao.
    + intros _. cbn [app]. do 2 apply list_elem_of_further. apply list_elem_of_here.
  - split; [intros a'|]; (split; [intros Hin|]).
    + cbn [app] in Hin.
      do 3 (apply elem_of_cons in Hin as [Hin|Hin]; [discriminate Hin|]).
      apply elem_of_cons in Hin as [Hin|Hin].
      * injection Hin as ->. split; [done|]. by exists ao.
      * repeat (apply elem_of_cons in Hin as [Hin|Hin]; [discriminate Hin|]).
        by apply elem_of_nil in Hin.
    + intros [Harm' _]. assert (a' = a) as -> by congruence.
      cbn [app]. do 3 apply list_elem_of_further. apply list_elem_of_here.
    + cbn [app] in Hin.
      repeat (apply elem_of_cons in Hin as [Hin|Hin]; [discriminate Hin|]).
      by apply elem_of_nil in Hin.
    + intros (a' & ao' & Harm' & Ha' & Ht'). congruence.
Qed.

(** X13. Whenever the operator is enabled the panel shows the bone search
    field for the chosen armature and no error label. *)
Theorem poll_true_draws_bone_field (s : Scene) :
  poll s = true →
  (∃ a,
     armature_obj (hand_prop_placer_props s) = Some a ∧
     layout_prop_search "target_hand_bone_name" a "bones" "Bone" ∈ draw s) ∧
  layout_label "Selected object is not an Armature!" (Some "ERROR"%string) ∉ draw s.
Proof.
  intros (a & ao & p & Harm & Ha & Ht & _)%poll_true_inv.
  pose proof Harm as [Harm' _]%read_pointer_Some.
  unfold draw.
  destruct (draw_bone_section_cases s)
    as [[-> Hn]|[(a' & ao' & -> & Harm2 & Ha2 & Ht2)|(a' & ao' & -> & Harm2 & Ha2 & Ht2)]].
  - congruence.
  - congruence.
  - assert (a' = a) as -> by congruence. split.
    + exists a. split; [done|].
      cbn [app]. do 3 apply list_elem_of_further. apply list_elem_of_here.
    + intros Hin. cbn [app] in Hin.
      repeat (apply elem_of_cons in Hin as [Hin|Hin]; [discriminate Hin|]).
      by apply elem_of_nil in Hin.
Qed.

Lemma poll_true_draws_bone_field_witness :
  (∃ a,
     armature_obj (hand_prop_placer_props (Sample.scene true 0 0)) = Some a ∧
     layout_prop_search "target_hand_bone_name" a "bones" "Bone"
       ∈ draw (Sample.scene true 0 0)) ∧
  layout_label "Selected object is not an Armature!" (Some "ERROR"%string)
    ∉ draw (Sample.scene true 0 0).
Proof.
  apply (poll_true_draws_bone_field (Sample.scene true 0 0)).
  reflexivity.
Defined.

(** X14. Whatever the scene, the panel shows no settings field twice,
    and shows the eleven fields other than the bone name always, in the
    same order. *)
Theorem draw_fields (s : Scene) :
  NoDup (drawn_fields (draw s)) ∧
  filter (λ name, name ≠ "target_hand_bone_name"%string) (drawn_fields (draw s))
  = ["armature_obj"; "prop_obj"; "hand_side"; "parent_prop"; "apply_prop_scale";
     "offset_x"; "offset_y"; "offset_z"; "rotate_x"; "rotate_y"; "rotate_z"]%string.
Proof.
  unfold draw.
  destruct (draw_bone_section_cases s)
    as [[-> _]|[(a & ao & -> & _)|(a & ao & -> & _)]].
  all: split; [apply (bool_decide_unpack _); reflexivity|reflexivity].
Qed.

(** ** Registration *)

Section RegistrationFacts.
Import Registration.

Lemma filter_ne_notin (c : string) (l : list string) :
  c ∉ l → filter (λ x, x ≠ c) l = l.
Proof.
  induction l as [|x l IH]; [done|].
  rewrite not_elem_of_cons. intros [Hne Hnin].
  rewrite filter_cons_True by done. f_equal. auto.
Qed.

Lemma elem_of_classes (c : string) :
  c ∈ classes ↔
  c = "HandPropPlacerProperties"%string ∨ c = "HANDPROP_OT_place_prop"%string
  ∨ c = "HANDPROP_PT_main_panel"%string.
Proof.
  unfold classes. rewrite !elem_of_cons, elem_of_nil. tauto.
Qed.

(** Registering when none of the three classes is registered. *)
Lemma register_fresh (r : Registry) :
  (∀ c, c ∈ classes → c ∉ registered r) →
  register r = (None, mkRegistry (registered r ++ classes) true).
Proof.
  intros Hfresh.
  assert (H1 : "HandPropPlacerProperties"%string ∉ registered r)
    by (apply Hfresh, elem_of_classes; auto).
  assert (H2 : "HANDPROP_OT_place_prop"%string ∉ registered r)
    by (apply Hfresh, elem_of_classes; auto).
  assert (H3 : "HANDPROP_PT_main_panel"%string ∉ registered r)
    by (apply Hfresh, elem_of_classes; auto).
  unfold register, classes. cbn [for_each_class]. unfold register_class at 1.
  rewrite bool_decide_eq_false_2 by done. cbn [registered scene_attr].
  unfold register_class at 1. cbn [registered scene_attr].
  rewrite bool_decide_eq_false_2
    by (rewrite elem_of_app, list_elem_of_singleton; intros [?|?]; done).
  unfold register_class at 1. cbn [registered scene_attr].
  rewrite bool_decide_eq_false_2
    by (rewrite !elem_of_app, !list_elem_of_singleton; intros [[?|?]|?]; done).
  cbn [registered]. by rewrite <- !(assoc_L (++)).
Qed.

End RegistrationFacts.

(** X15. When none of the add-on's classes is registered and the scene
    type lacks the settings attribute, [register] succeeds, registers the
    three classes in order and adds the attribute, and [unregister] then
    succeeds and gives back the registry as it was. *)
Theorem register_then_unregister (r : Registration.Registry) :
  (∀ c, c ∈ Registration.classes → c ∉ Registration.registered r) →
  Registration.scene_attr r = false →
  ∃ r1,
    Registration.register r = (None, r1) ∧
    Registration.registered r1 = Registration.registered r ++ Registration.classes ∧
    Registration.scene_attr r1 = true ∧
    Registration.unregister r1 = (None, r).
Proof.
  intros Hfresh Hattr. eexists. split; [by apply register_fresh|].
  split; [done|]. split; [done|].
  assert (H1 : "HandPropPlacerProperties"%string ∉ Registration.registered r)
    by (apply Hfresh, elem_of_classes; auto).
  assert (H2 : "HANDPROP_OT_place_prop"%string ∉ Registration.registered r)
    by (apply Hfresh, elem_of_classes; auto).
  assert (H3 : "HANDPROP_PT_main_panel"%string ∉ Registration.registered r)
    by (apply Hfresh, elem_of_classes; auto).
  destruct r as [reg attr]. cbn [Registration.registered Registration.scene_attr] in *.
  subst attr.
  unfold Registration.unregister, Registration.classes.
  cbn [Registration.scene_attr Registration.registered reverse rev_append
       Registration.for_each_class].
  unfold Registration.unregister_class at 1. cbn [Registration.registered].
  rewrite bool_decide_eq_true_2 by (rewrite elem_of_app; right; apply (bool_decide_unpack _); reflexivity).
  cbn [Registration.registered Registration.scene_attr].
  rewrite filter_app, (filter_ne_notin _ reg H3).
  unfold Registration.unregister_class at 1. cbn [Registration.registered].
  rewrite bool_decide_eq_true_2
    by (rewrite elem_of_app; right; apply (bool_decide_unpack _); reflexivity).
  cbn [Registration.registered Registration.scene_attr].
  rewrite filter_app, (filter_ne_notin _ reg H2).
  unfold Registration.unregister_class at 1. cbn [Registration.registered].
  rewrite bool_decide_eq_true_2
    by (rewrite elem_of_app; right; apply (bool_decide_unpack _); reflexivity).
  cbn [Registration.registered Registration.scene_attr].
  rewrite filter_app, (filter_ne_notin _ reg H1).
  do 2 f_equal. apply (right_id_L [] (++)).
Qed.

Lemma register_then_unregister_witness :
  ∃ r1,
    Registration.register (Registration.mkRegistry ["OBJECT_OT_other"%string] false)
    = (None, r1) ∧
    Registration.registered r1
    = ["OBJECT_OT_other"%string] ++ Registration.classes ∧
    Registration.scene_attr r1 = true ∧
    Registration.unregister r1
    = (None, Registration.mkRegistry ["OBJECT_OT_other"%string] false).
Proof.
  apply (register_then_unregister
           (Registration.mkRegistry ["OBJECT_OT_other"%string] false)).
  - intros c Hc Hin. cbn [Registration.registered] in Hin.
    apply list_elem_of_singleton in Hin as ->.
    apply elem_of_classes in Hc as [Hc|[Hc|Hc]]; discriminate Hc.
  - reflexivity.
Defined.

Section RegistrationLoops.
Import Registration.
Implicit Types (r : Registry) (cs : list string).

Lemma classes_NoDup : NoDup classes.
Proof. apply (bool_decide_unpack _). reflexivity. Qed.

Lemma for_each_register_None cs : ∀ r,
  NoDup cs →
  fst (for_each_class register_class cs r) = None ↔
  ∀ c, c ∈ cs → c ∉ registered r.
Proof.
  induction cs as [|c cs IH]; intros r Hnd.
  - split; [|done]. by intros _ c ?%elem_of_nil.
  - apply NoDup_cons in Hnd as [Hc Hnd]. cbn [for_each_class].
    unfold register_class. case_bool_decide as Hin.
    + split; [done|]. intros Hall. destruct (Hall c); [left|done].
    + rewrite IH by done. cbn [registered]. split.
      * intros Hall x [->|Hx]%elem_of_cons; [done|].
        intros Hxr. apply (Hall x Hx). apply elem_of_app. by left.
      * intros Hall x Hx [Hxr|Hxc%list_elem_of_singleton]%elem_of_app;
          [|by subst x].
        apply (Hall x); [by right|done].
Qed.

Lemma for_each_register_Some cs : ∀ r e r',
  NoDup cs →
  for_each_class register_class cs r = (Some e, r') →
  ∃ c before after,
    cs = before ++ c :: after ∧ e = ValueError c ∧ c ∈ registered r ∧
    registered r' = registered r ++ before ∧
    scene_attr r' = scene_attr r.
Proof.
  induction cs as [|c cs IH]; intros r e r' Hnd; [done|].
  apply NoDup_cons in Hnd as [Hc Hnd]. cbn [for_each_class].
  unfold register_class. case_bool_decide as Hin.
  - intros [= He Hr]. subst e r'. exists c, [], cs.
    split_and!; [done|done|done| |done]. by rewrite (right_id_L [] (++)).
  - intros (c' & before & after & -> & -> & Hin' & Hreg & Hattr)%IH; [|done].
    cbn [registered scene_attr] in *. exists c', (c :: before), after.
    apply elem_of_app in Hin' as [Hin'|Hcc%list_elem_of_singleton].
    + split_and!; [done|done|done| |done].
      by rewrite Hreg, <- (assoc_L (++)).
    + subst c'. destruct Hc. apply elem_of_app. right. left.
Qed.

Lemma for_each_unregister_None cs : ∀ r,
  NoDup cs →
  fst (for_each_class unregister_class cs r) = None ↔
  ∀ c, c ∈ cs → c ∈ registered r.
Proof.
  induction cs as [|c cs IH]; intros r Hnd.
  - split; [|done]. by intros _ c ?%elem_of_nil.
  - apply NoDup_cons in Hnd as [Hc Hnd]. cbn [for_each_class].
    unfold unregister_class. case_bool_decide as Hin.
    + rewrite IH by done. cbn [registered]. split.
      * intros Hall x [->|Hx]%elem_of_cons; [done|].
        by pose proof (Hall x Hx) as [_ ?]%list_elem_of_filter.
      * intros Hall x Hx. apply list_elem_of_filter. split.
        -- intros ->. done.
        -- apply Hall. by right.
    + split; [done|]. intros Hall. destruct Hin. apply Hall. left.
Qed.

Lemma for_each_unregister_result cs : ∀ r r',
  for_each_class unregister_class cs r = (None, r') →
  registered r' = filter (λ x, x ∉ cs) (registered r) ∧
  scene_attr r' = scene_attr r.
Proof.
  induction cs as [|c cs IH]; intros r r'.
  - intros [= <-]. split; [|done]. symmetry.
    induction (registered r) as [|x l IHl]; [done|].
    rewrite filter_cons_True by apply not_elem_of_nil. by f_equal.
  - cbn [for_each_class]. unfold unregister_class. case_bool_decide as Hin; [|done].
    intros [-> ->]%IH. cbn [registered scene_attr]. split; [|done].
    rewrite list_filter_filter. apply list_filter_iff. intros x.
    rewrite not_elem_of_cons. tauto.
Qed.

Lemma for_each_class_scene_attr f cs : ∀ r,
  (∀ c r r', f c r = inr r' → scene_attr r' = scene_attr r) →
  scene_attr (snd (for_each_class f cs r)) = scene_attr r.
Proof.
  induction cs as [|c cs IH]; intros r Hf; [done|].
  cbn [for_each_class]. destruct (f c r) as [e|r1] eqn:E; [done|].
  rewrite IH by done. by apply (Hf c).
Qed.

Lemma unregister_class_scene_attr c r r' :
  unregister_class c r = inr r' → scene_attr r' = scene_attr r.
Proof. unfold unregister_class. case_bool_decide; [|done]. by intros [= <-]. Qed.

End RegistrationLoops.

(** X16. [register] succeeds exactly when none of the add-on's three
    classes is registered already. *)
Theorem register_succeeds_iff (r : Registration.Registry) :
  fst (Registration.register r) = None ↔
  ∀ c, c ∈ Registration.classes → c ∉ Registration.registered r.
Proof.
  rewrite <- (for_each_register_None Registration.classes r classes_NoDup).
  unfold Registration.register.
  by destruct (Registration.for_each_class _ _ _) as [[e|] r'].
Qed.

(** X17. When [register] fails it raises [ValueError] for the first class
    of the add-on, in the order of [classes], that was registered already;
    the classes before it in that order have been registered and stay
    registered (nothing is rolled back), in addition to everything
    registered before; the scene type's settings attribute is not
    touched. *)
Theorem register_failure (r r' : Registration.Registry) (e : Registration.Exception) :
  Registration.register r = (Some e, r') →
  ∃ c before after,
    Registration.classes = before ++ c :: after ∧
    e = Registration.ValueError c ∧
    c ∈ Registration.registered r ∧
    Registration.registered r' = Registration.registered r ++ before ∧
    Registration.scene_attr r' = Registration.scene_attr r.
Proof.
  unfold Registration.register.
  destruct (Registration.for_each_class _ _ _) as [[e'|] r1] eqn:E; [|done].
  intros [= He Hr]. subst e' r1.
  by apply (for_each_register_Some _ _ _ _ classes_NoDup E).
Qed.

(** The operator class is registered already: the settings class gets
    registered, then the run stops. *)
Lemma register_failure_witness :
  ∃ e r',
    Registration.register
      (Registration.mkRegistry ["HANDPROP_OT_place_prop"%string] false)
    = (Some e, r') ∧
    e = Registration.ValueError "HANDPROP_OT_place_prop" ∧
    Registration.registered r'
    = ["HANDPROP_OT_place_prop"; "HandPropPlacerProperties"]%string ∧
    ∃ c before after,
      Registration.classes = before ++ c :: after ∧
      e = Registration.ValueError c ∧
      c ∈ ["HANDPROP_OT_place_prop"%string] ∧
      Registration.registered r' = ["HANDPROP_OT_place_prop"%string] ++ before ∧
      Registration.scene_attr r' = false.
Proof.
  eexists _, _. split; [reflexivity|]. split; [reflexivity|]. split; [reflexivity|].
  apply (register_failure
           (Registration.mkRegistry ["HANDPROP_OT_place_prop"%string] false)).
  reflexivity.
Defined.

(** X18. [unregister] always leaves the scene type without the settings
    attribute, also when it fails, and it succeeds exactly when all three
    classes are registered. *)
Theorem unregister_outcome (r : Registration.Registry) :
  Registration.scene_attr (snd (Registration.unregister r)) = false ∧
  (fst (Registration.unregister r) = None ↔
   ∀ c, c ∈ Registration.classes → c ∈ Registration.registered r).
Proof.
  unfold Registration.unregister. split.
  - rewrite for_each_class_scene_attr by apply unregister_class_scene_attr.
    by destruct (Registration.scene_attr r) eqn:Hattr.
  - rewrite for_each_unregister_None
      by (rewrite reverse_Permutation; apply classes_NoDup).
    assert (Hreg : Registration.registered
                     (if Registration.scene_attr r
                      then Registration.mkRegistry (Registration.registered r) false
                      else r) = Registration.registered r)
      by (by destruct (Registration.scene_attr r)).
    rewrite Hreg. by setoid_rewrite elem_of_reverse.
Qed.

(** X19. When [unregister] succeeds, what stays registered is what was
    registered, in the same order, without the add-on's three classes. *)
Theorem unregister_removes_only_own_classes (r r' : Registration.Registry) :
  Registration.unregister r = (None, r') →
  Registration.registered r'
  = filter (λ x, x ∉ Registration.classes) (Registration.registered r).
Proof.
  unfold Registration.unregister.
  intros [-> _]%for_each_unregister_result.
  assert (Hreg : Registration.registered
                   (if Registration.scene_attr r
                    then Registration.mkRegistry (Registration.registered r) false
                    else r) = Registration.registered r)
    by (by destruct (Registration.scene_attr r)).
  rewrite Hreg. apply list_filter_iff. intros x. by rewrite elem_of_reverse.
Qed.

Lemma unregister_removes_only_own_classes_witness :
  ∃ r',
    Registration.unregister
      (Registration.mkRegistry
         ["OBJECT_OT_a"; "HandPropPlacerProperties"; "HANDPROP_PT_main_panel";
          "OBJECT_OT_b"; "HANDPROP_OT_place_prop"]%string true)
    = (None, r') ∧
    Registration.registered r'
    = filter (λ x, x ∉ Registration.classes)
        ["OBJECT_OT_a"; "HandPropPlacerProperties"; "HANDPROP_PT_main_panel";
         "OBJECT_OT_b"; "HANDPROP_OT_place_prop"]%string.
Proof.
  eexists. split; [reflexivity|].
  apply (unregister_removes_only_own_classes
           (Registration.mkRegistry
              ["OBJECT_OT_a"; "HandPropPlacerProperties"; "HANDPROP_PT_main_panel";
               "OBJECT_OT_b"; "HANDPROP_OT_place_prop"]%string true)).
  reflexivity.
Defined.
